(** * web_crawler_extractor: the crawl engine, its circuit breaker and URL policy

    A shallow embedding of [src/url_handler.py], [src/crawler.py],
    [src/content_extractor.py] and [src/site_mapper.py].

    Conventions of the embedding.
    - Python [str] values are [string]s (byte strings; URLs are taken to be
      ASCII, so [str.lower] and [re.IGNORECASE] act on the letters A-Z only).
    - Python [int] is [Z]; Python [float] delays are rationals [Q].
    - [datetime] values are [Z] microseconds since [datetime.min];
      [timedelta(seconds=n)] is [n * 1000000].  Building a [timedelta] of
      more than 999999999 days, or a [datetime] outside
      [datetime.min .. datetime.max], raises [OverflowError], as does
      turning an [int] of 2^1024 or more into a [float].
    - [dict] is [gmap], [set] is [gset].
    - Library code outside the repository ([urllib.parse.urlparse], the
      robots.txt parser, BeautifulSoup, the HTTP transport, the clock and the
      random generator) is not embedded: its results enter as parameters
      ([Externals], [BS4]) or as the per-step environment choice [Tick]. *)

From Stdlib Require Import ZArith QArith Ascii String List Bool Lia.
From stdpp Require Import base gmap strings list pretty.

Local Open Scope string_scope.
Local Open Scope Z_scope.
Local Open Scope list_scope.

(** ** Python string primitives used by the sources *)

Module Py.

Definition newline : ascii := "010"%char.

(** [c.lower()] on one ASCII character. *)
Definition lower_ascii (c : ascii) : ascii :=
  let n := nat_of_ascii c in
  if (Nat.leb 65 n && Nat.leb n 90)%bool then ascii_of_nat (n + 32) else c.

(** [s.lower()]. *)
Fixpoint lower (s : string) : string :=
  match s with
  | EmptyString => EmptyString
  | String c r => String (lower_ascii c) (lower r)
  end.

(** [s.startswith(p)]. *)
Definition startswith (p s : string) : bool := String.prefix p s.

(** [needle in hay]. *)
Fixpoint contains (needle hay : string) : bool :=
  String.prefix needle hay ||
  match hay with
  | EmptyString => false
  | String _ r => contains needle r
  end.

(** [s.endswith(suffix)]. *)
Fixpoint endswith (suffix s : string) : bool :=
  String.eqb s suffix ||
  match s with
  | EmptyString => false
  | String _ r => endswith suffix r
  end.

(** [re.search(lit + '$', s)] for a literal [lit]: without [re.MULTILINE],
    [$] matches at the very end and just before a final newline. *)
Fixpoint search_literal_dollar (lit s : string) : bool :=
  String.eqb s lit || String.eqb s (lit +:+ String newline EmptyString) ||
  match s with
  | EmptyString => false
  | String _ r => search_literal_dollar lit r
  end.

(** [any(f(x) for x in l)]. *)
Definition any {A} (f : A → bool) (l : list A) : bool := existsb f l.

End Py.

(** ** What the standard library and third parties compute *)

(** The three components of [urllib.parse.urlparse(url)] the sources read. *)
Record ParseResult := {
  scheme : string;
  netloc : string;
  path : string
}.

Record Externals := {
(** [urlparse(url)] *)
urlparse : string → ParseResult;
(** [RobotFileParser.can_fetch(user_agent, url)] of the parser that was
    set up for the origin [base_url]; an exception counts as [True]. *)
robot_parser_can_fetch : string → string → string → bool
}.

(** ** [src/url_handler.py] *)

Module URLHandler.

Record t := {
  base_url : string;
  base_domain : string;
  base_path_prefix : string;
  respect_robots : bool;
  same_path_only : bool;
  exclude_keywords : list string
}.

(** The tail left by [.*$] tried right after a [#]: [.] matches anything
    but a newline, and [$] matches at the end or before a final newline.
    [None] when the match fails at this [#]. *)
Fixpoint dot_star_dollar (s : string) : option string :=
  match s with
  | EmptyString => Some EmptyString
  | String c r =>
      if Ascii.eqb c Py.newline then
        match r with
        | EmptyString => Some s
        | String _ _ => None
        end
      else dot_star_dollar r
  end.

(** [re.sub(r'#.*$', '', url)]. *)
Fixpoint sub_fragment (url : string) : string :=
  match url with
  | EmptyString => EmptyString
  | String c r =>
      if Ascii.eqb c "#"%char then
        match dot_star_dollar r with
        | Some tail => tail
        | None => String c (sub_fragment r)
        end
      else String c (sub_fragment r)
  end.

(** Where [$] matches: end of string, or before a final newline. *)
Definition at_dollar (r : string) : bool :=
  match r with
  | EmptyString => true
  | String c EmptyString => Ascii.eqb c Py.newline
  | _ => false
  end.

(** [re.sub(r'/$', '', url)]. *)
Fixpoint sub_trailing_slash (url : string) : string :=
  match url with
  | EmptyString => EmptyString
  | String c r =>
      if (Ascii.eqb c "/"%char && at_dollar r)%bool then r
      else String c (sub_trailing_slash r)
  end.

Definition _normalize_url (url : string) : string :=
  let url := sub_fragment url in
  let url := sub_trailing_slash url in
  url.

Definition excluded_extensions : list string :=
  [".jpg"; ".jpeg"; ".png"; ".gif"; ".ico"; ".css"; ".js"; ".xml"; ".json"].

(** The four [excluded_patterns], searched with [re.IGNORECASE]. *)
Definition matches_excluded_patterns (url : string) : bool :=
  let u := Py.lower url in
  Py.any (λ e, Py.search_literal_dollar e u) excluded_extensions
  || Py.any (λ p, Py.contains p u) ["mailto:"; "tel:"]
  || Py.any (λ p, Py.contains p u)
       ["login"; "logout"; "signin"; "signout"; "admin"]
  || Py.any (λ p, Py.contains p u) ["?utm_"; "&utm_"].

Section WithExternals.
Context (ext : Externals).

Definition new (url : string) (respect : bool) (keywords : list string) : t :=
  let b := _normalize_url url in
  {| base_url := b;
     base_domain := netloc (urlparse ext b);
     base_path_prefix := path (urlparse ext b);
     respect_robots := respect;
     same_path_only := false;
     exclude_keywords := keywords |}.

Definition set_same_path_only (b : bool) (h : t) : t :=
  {| base_url := base_url h;
     base_domain := base_domain h;
     base_path_prefix := base_path_prefix h;
     respect_robots := respect_robots h;
     same_path_only := b;
     exclude_keywords := exclude_keywords h |}.

Definition _is_excluded_url (h : t) (url : string) : bool :=
  if matches_excluded_patterns url then true
  else
    let p := Py.lower (path (urlparse ext url)) in
    Py.any (λ keyword, Py.contains (Py.lower keyword) p) (exclude_keywords h).

Definition is_valid_url (h : t) (url : string) : bool :=
  let parsed := urlparse ext url in
  (String.eqb (scheme parsed) "http" || String.eqb (scheme parsed) "https")
  && negb (String.eqb (netloc parsed) "")
  && negb (_is_excluded_url h url).

Definition has_same_path_prefix (h : t) (url : string) : bool :=
  let url_path := path (urlparse ext url) in
  if String.eqb (base_path_prefix h) "" || String.eqb (base_path_prefix h) "/"
  then true
  else Py.startswith (base_path_prefix h) url_path.

Definition is_internal_url (h : t) (url : string) : bool :=
  let parsed_url := urlparse ext url in
  let is_same_domain :=
    String.eqb (netloc parsed_url) (base_domain h)
    || String.eqb (netloc parsed_url) "" in
  if same_path_only h then is_same_domain && has_same_path_prefix h url
  else is_same_domain.

Definition can_fetch (h : t) (url user_agent : string) : bool :=
  if negb (respect_robots h) then true
  else robot_parser_can_fetch ext (base_url h) user_agent url.

(** [extract_links]: [hrefs] are the anchors of the page already resolved
    by [urljoin(current_url, href)]; the result is a set turned into a
    list, kept here in order of first occurrence. *)
Definition extract_links (h : t) (hrefs : list string) : list string :=
  remove_dups (filter (λ u, is_valid_url h u = true) (map _normalize_url hrefs)).

End WithExternals.

End URLHandler.

(** ** [src/crawler.py]: class [CircuitBreaker] *)

Module CircuitBreaker.

Record t := {
  threshold : Z;
  timeout : Z;
  failures : gmap string Z;
  open_circuits : gmap string Z
}.

Definition new (threshold timeout : Z) : t :=
  {| threshold := threshold; timeout := timeout;
     failures := ∅; open_circuits := ∅ |}.

(** Reading [self.failures[domain]] of the [defaultdict(int)]. *)
Definition failure_count (cb : t) (domain : string) : Z :=
  default 0 (failures cb !! domain).

(** [timedelta(seconds=n)] in microseconds. *)
Definition seconds (n : Z) : Z := n * 1000000.

(** [datetime.max], in microseconds since [datetime.min]. *)
Definition datetime_max : Z := 3652059 * 86400000000 - 1.

(** [timedelta(seconds=n)] exists: its days are within ±999999999. *)
Definition timedelta_ok (n : Z) : bool :=
  (-999999999 <=? n / 86400) && (n / 86400 <=? 999999999).

(** A [datetime] exists for the instant [t]. *)
Definition datetime_ok (t : Z) : bool := (0 <=? t) && (t <=? datetime_max).

(** [datetime.now() + timedelta(seconds=timeout)] does not raise. *)
Definition deadline_ok (now timeout : Z) : bool :=
  timedelta_ok timeout && datetime_ok (now + seconds timeout).

(** How a call that may raise [OverflowError] ends, with the breaker it
    leaves behind. *)
Inductive ending :=
| Returned (cb : t)
| Overflowed (cb : t).

Definition state_of (e : ending) : t :=
  match e with
  | Returned cb | Overflowed cb => cb
  end.

(** [record_failure(domain)]; [now] is what [datetime.now()] returns.  The
    failure is counted before the deadline is computed. *)
Definition record_failure (now : Z) (domain : string) (cb : t) : ending :=
  let n := failure_count cb domain + 1 in
  let fs := <[domain := n]> (failures cb) in
  let counted :=
    {| threshold := threshold cb; timeout := timeout cb; failures := fs;
       open_circuits := open_circuits cb |} in
  if (threshold cb <=? n) && bool_decide (open_circuits cb !! domain = None)
  then
    if deadline_ok now (timeout cb)
    then Returned
           {| threshold := threshold cb; timeout := timeout cb; failures := fs;
              open_circuits :=
                <[domain := now + seconds (timeout cb)]> (open_circuits cb) |}
    else Overflowed counted
  else Returned counted.

Definition record_success (domain : string) (cb : t) : t :=
  match failures cb !! domain with
  | Some _ =>
      {| threshold := threshold cb; timeout := timeout cb;
         failures := <[domain := 0]> (failures cb);
         open_circuits := open_circuits cb |}
  | None => cb
  end.

(** [is_open(domain)]: the answer and the breaker it leaves behind. *)
Definition is_open (now : Z) (domain : string) (cb : t) : bool * t :=
  match open_circuits cb !! domain with
  | Some until =>
      if until <? now then
        (false,
         {| threshold := threshold cb; timeout := timeout cb;
            failures := <[domain := 0]> (failures cb);
            open_circuits := delete domain (open_circuits cb) |})
      else (true, cb)
  | None => (false, cb)
  end.

(** A caller's use of the breaker, and a sequence of such calls. *)
Inductive call :=
| RecordFailure (domain : string) (now : Z)
| RecordSuccess (domain : string)
| IsOpen (domain : string) (now : Z).

Definition exec (c : call) (cb : t) : t :=
  match c with
  | RecordFailure d now => state_of (record_failure now d cb)
  | RecordSuccess d => record_success d cb
  | IsOpen d now => snd (is_open now d cb)
  end.

Definition run (calls : list call) (cb : t) : t :=
  fold_left (λ s c, exec c s) calls cb.

(** What an observer of the calls sees happen, in the spec's words: a
    failure or a success is recorded, or a query closes an open circuit. *)
Inductive event :=
| Failed (domain : string)
| Succeeded (domain : string)
| Closed (domain : string)
| Queried (domain : string).

Definition observe (c : call) (cb : t) : event :=
  match c with
  | RecordFailure d _ => Failed d
  | RecordSuccess d => Succeeded d
  | IsOpen d now =>
      match open_circuits cb !! d with
      | Some until => if until <? now then Closed d else Queried d
      | None => Queried d
      end
  end.

(** The events of a run, most recent first. *)
Fixpoint history_from (calls : list call) (cb : t) (past : list event) : list event :=
  match calls with
  | [] => past
  | c :: cs => history_from cs (exec c cb) (observe c cb :: past)
  end.

Definition history (calls : list call) (cb : t) : list event :=
  history_from calls cb [].

(** The spec's count: the failures recorded for [d] since its last success
    or its last close ([h] lists the most recent event first). *)
Fixpoint consecutive_failures (d : string) (h : list event) : Z :=
  match h with
  | [] => 0
  | Failed d' :: h' =>
      if String.eqb d d' then consecutive_failures d h' + 1
      else consecutive_failures d h'
  | Succeeded d' :: h' | Closed d' :: h' =>
      if String.eqb d d' then 0 else consecutive_failures d h'
  | Queried _ :: h' => consecutive_failures d h'
  end.

(** The domain a call is about. *)
Definition domain_of (c : call) : string :=
  match c with
  | RecordFailure d _ | RecordSuccess d | IsOpen d _ => d
  end.

End CircuitBreaker.

(** ** [src/content_extractor.py] *)

Module ContentExtractor.

(** A raised Python exception: its class name, and whether the class
    derives from [Exception] (what [except Exception] catches) or only from
    [BaseException]. *)
Record PyError := {
  class_name : string;
  is_Exception : bool
}.

Inductive result (A : Type) :=
| Ok (a : A)
| Raise (e : PyError).
Arguments Ok {A} a.
Arguments Raise {A} e.

Definition bind {A B} (r : result A) (k : A → result B) : result B :=
  match r with
  | Ok a => k a
  | Raise e => Raise e
  end.

(** [try: body  except Exception as e: handler(e)]. *)
Definition try_except_Exception {A} (body : result A) (handler : PyError → result A)
  : result A :=
  match body with
  | Ok a => Ok a
  | Raise e => if is_Exception e then handler e else Raise e
  end.

Module CodeBlock.
Record t := { content : string; language : string }.
End CodeBlock.

(** The dict [extract_content] returns. *)
Record Content := {
  title : string;
  url : string;
  content : string;
  code_blocks : list CodeBlock.t
}.

(** The helper methods whose bodies are BeautifulSoup calls, as fallible
    operations on a parse tree that they may change in place. *)
Record BS4 := {
  Soup : Type;
  BeautifulSoup : string → result Soup;
  _preserve_code_blocks : Soup → result (list CodeBlock.t * Soup);
  _remove_unwanted_elements : Soup → result Soup;
  _extract_title : Soup → result string;
  _extract_main_content : Soup → result string
}.

(** [content.replace(old, new)] for a non-empty [old]: [skip] counts the
    characters of a match still to be dropped. *)
Fixpoint replace_from (old new : string) (skip : nat) (s : string) : string :=
  match s with
  | EmptyString => EmptyString
  | String c r =>
      match skip with
      | S n => replace_from old new n r
      | O =>
          if String.prefix old s
          then new +:+ replace_from old new (Nat.pred (String.length old)) r
          else String c (replace_from old new O r)
      end
  end.

Definition replace (old new s : string) : string := replace_from old new O s.

Definition nl : string := String Py.newline EmptyString.

Fixpoint reinsert_from (i : nat) (content : string) (code_blocks : list CodeBlock.t)
  : string :=
  match code_blocks with
  | [] => content
  | block :: rest =>
      let placeholder := "[CODE_BLOCK_" +:+ pretty i +:+ "]" in
      let replacement :=
        nl +:+ "```" +:+ CodeBlock.language block +:+ nl
           +:+ CodeBlock.content block +:+ nl +:+ "```" +:+ nl in
      reinsert_from (S i) (replace placeholder replacement content) rest
  end.

Definition _reinsert_code_blocks (content : string) (code_blocks : list CodeBlock.t)
  : string :=
  reinsert_from O content code_blocks.

Definition empty_result (u : string) : Content :=
  {| title := ""; url := u; content := ""; code_blocks := [] |}.

Section WithBS4.
Context (bs : BS4).

(** The body of the [try] block. *)
Definition extract_content_body (html u : string) : result Content :=
  bind (BeautifulSoup bs html) (λ soup,
  bind (_preserve_code_blocks bs soup) (λ '(blocks, soup),
  bind (_remove_unwanted_elements bs soup) (λ soup,
  bind (_extract_title bs soup) (λ t,
  bind (_extract_main_content bs soup) (λ main_content,
    let final_content := _reinsert_code_blocks main_content blocks in
    Ok {| title := t; url := u; content := final_content;
          code_blocks := blocks |}))))).

Definition extract_content (html u : string) : result Content :=
  try_except_Exception (extract_content_body html u)
    (λ _, Ok (empty_result u)).

End WithBS4.

End ContentExtractor.

(** ** [src/site_mapper.py] *)

Module SiteMapper.

Record PageInfo := {
  links : list string;
  depth : Z;
  title : string;
  timestamp : Z
}.

Record t := {
  site_map : gmap string PageInfo;
  depth_map : gmap string Z;
  concatenated_text : list ContentExtractor.Content
}.

Definition new : t :=
  {| site_map := ∅; depth_map := ∅; concatenated_text := [] |}.

Definition add_page (now : Z) (u : string) (ls : list string) (d : Z)
    (c : ContentExtractor.Content) (m : t) : t :=
  {| site_map :=
       <[u := {| links := ls; depth := d;
                 title := ContentExtractor.title c; timestamp := now |}]>
         (site_map m);
     depth_map := <[u := d]> (depth_map m);
     concatenated_text :=
       if String.eqb (ContentExtractor.content c) ""
       then concatenated_text m
       else concatenated_text m ++
            [ {| ContentExtractor.title := ContentExtractor.title c;
                 ContentExtractor.url := u;
                 ContentExtractor.content := ContentExtractor.content c;
                 ContentExtractor.code_blocks := ContentExtractor.code_blocks c |} ] |}.

(** The [start_urls] argument as Python receives it: the annotated
    [List[str]], or a bare [str]. *)
Inductive start_urls_arg :=
| OneStr (s : string)
| StrList (l : list string).

(** [if isinstance(start_urls, str): start_urls = [start_urls]]. *)
Definition as_list (a : start_urls_arg) : list string :=
  match a with
  | OneStr s => [s]
  | StrList l => l
  end.

Record Metadata := {
  start_urls : list string;
  crawl_date : Z;
  total_pages : Z
}.

Record Report := {
  metadata : Metadata;
  report_site_map : gmap string PageInfo;
  llmfulltext : string
}.

(** [sep.join(parts)]. *)
Fixpoint join (sep : string) (parts : list string) : string :=
  match parts with
  | [] => ""
  | [p] => p
  | p :: rest => p +:+ sep +:+ join sep rest
  end.

Definition section_text (page : ContentExtractor.Content) : string :=
  "# " +:+ ContentExtractor.title page +:+ ContentExtractor.nl
    +:+ "URL: " +:+ ContentExtractor.url page
    +:+ ContentExtractor.nl +:+ ContentExtractor.nl
    +:+ ContentExtractor.content page.

Definition generate_output (now : Z) (a : start_urls_arg) (m : t) : Report :=
  let start_urls := as_list a in
  let full_text :=
    join (ContentExtractor.nl +:+ ContentExtractor.nl)
         (map section_text (concatenated_text m)) in
  {| metadata := {| start_urls := start_urls; crawl_date := now;
                    total_pages := Z.of_nat (size (site_map m)) |};
     report_site_map := site_map m;
     llmfulltext := full_text |}.

(** [get_page_depth(url)]: [dict.get] gives [None] for a missing key. *)
Definition get_page_depth (u : string) (m : t) : option Z := depth_map m !! u.

Definition is_visited (u : string) (m : t) : bool :=
  bool_decide (is_Some (site_map m !! u)).

Definition get_unvisited_links (ls : list string) (m : t) : list string :=
  filter (λ link, is_visited link m = false) ls.

End SiteMapper.

(** ** [src/config.py] *)

Module Config.

Record CrawlerConfig := {
  max_depth : Z;
  max_links : Z;
  delay : Q;
  timeout : Z;
  exclude_keywords : list string;
  user_agent : string;
  respect_robots_txt : bool;
  same_path_only : bool;
  max_retries : Z;
  retry_delay : Q;
  circuit_breaker_threshold : Z;
  circuit_breaker_timeout : Z
}.

End Config.

(** ** [src/crawler.py]: class [Crawler] *)

Module Crawler.

(** The crawl state held by a [Crawler] instance.  [links_semaphore] is the
    value of the [asyncio.Semaphore] (an unbounded counter: [release] only
    adds one); [links_lock] is never contended, as nothing awaits while it
    is held, so the block it guards is one atomic update. *)
Record t := {
  config : Config.CrawlerConfig;
  url_handlers : gmap string URLHandler.t;
  visited_urls : gset string;
  failed_urls : gset string;
  total_links : Z;
  links_semaphore : Z;
  stop_crawling : bool;
  circuit_breaker : CircuitBreaker.t;
  error_counts : gmap string Z;
  site_mapper : SiteMapper.t
}.

(** [Crawler(config)]; [asyncio.Semaphore(n)] raises [ValueError] for a
    negative [n], which is the [None] here. *)
Definition fresh (cfg : Config.CrawlerConfig) (permits : Z) : t :=
  {| config := cfg; url_handlers := ∅;
     visited_urls := ∅; failed_urls := ∅;
     total_links := 0; links_semaphore := permits;
     stop_crawling := false;
     circuit_breaker :=
       CircuitBreaker.new (Config.circuit_breaker_threshold cfg)
                          (Config.circuit_breaker_timeout cfg);
     error_counts := ∅; site_mapper := SiteMapper.new |}.

Definition new (cfg : Config.CrawlerConfig) : option t :=
  let permits := Z.min 100 (Config.max_links cfg * 2) in
  if permits <? 0 then None else Some (fresh cfg permits).

(** Field updates. *)
Definition with_url_handlers (v : gmap string URLHandler.t) (c : t) : t :=
  {| config := config c; url_handlers := v; visited_urls := visited_urls c;
     failed_urls := failed_urls c; total_links := total_links c;
     links_semaphore := links_semaphore c; stop_crawling := stop_crawling c;
     circuit_breaker := circuit_breaker c; error_counts := error_counts c;
     site_mapper := site_mapper c |}.

Definition with_visited_urls (v : gset string) (c : t) : t :=
  {| config := config c; url_handlers := url_handlers c; visited_urls := v;
     failed_urls := failed_urls c; total_links := total_links c;
     links_semaphore := links_semaphore c; stop_crawling := stop_crawling c;
     circuit_breaker := circuit_breaker c; error_counts := error_counts c;
     site_mapper := site_mapper c |}.

Definition with_failed_urls (v : gset string) (c : t) : t :=
  {| config := config c; url_handlers := url_handlers c;
     visited_urls := visited_urls c; failed_urls := v;
     total_links := total_links c; links_semaphore := links_semaphore c;
     stop_crawling := stop_crawling c; circuit_breaker := circuit_breaker c;
     error_counts := error_counts c; site_mapper := site_mapper c |}.

Definition with_total_links (v : Z) (c : t) : t :=
  {| config := config c; url_handlers := url_handlers c;
     visited_urls := visited_urls c; failed_urls := failed_urls c;
     total_links := v; links_semaphore := links_semaphore c;
     stop_crawling := stop_crawling c; circuit_breaker := circuit_breaker c;
     error_counts := error_counts c; site_mapper := site_mapper c |}.

Definition with_links_semaphore (v : Z) (c : t) : t :=
  {| config := config c; url_handlers := url_handlers c;
     visited_urls := visited_urls c; failed_urls := failed_urls c;
     total_links := total_links c; links_semaphore := v;
     stop_crawling := stop_crawling c; circuit_breaker := circuit_breaker c;
     error_counts := error_counts c; site_mapper := site_mapper c |}.

Definition with_stop_crawling (v : bool) (c : t) : t :=
  {| config := config c; url_handlers := url_handlers c;
     visited_urls := visited_urls c; failed_urls := failed_urls c;
     total_links := total_links c; links_semaphore := links_semaphore c;
     stop_crawling := v; circuit_breaker := circuit_breaker c;
     error_counts := error_counts c; site_mapper := site_mapper c |}.

Definition with_circuit_breaker (v : CircuitBreaker.t) (c : t) : t :=
  {| config := config c; url_handlers := url_handlers c;
     visited_urls := visited_urls c; failed_urls := failed_urls c;
     total_links := total_links c; links_semaphore := links_semaphore c;
     stop_crawling := stop_crawling c; circuit_breaker := v;
     error_counts := error_counts c; site_mapper := site_mapper c |}.

Definition with_error_counts (v : gmap string Z) (c : t) : t :=
  {| config := config c; url_handlers := url_handlers c;
     visited_urls := visited_urls c; failed_urls := failed_urls c;
     total_links := total_links c; links_semaphore := links_semaphore c;
     stop_crawling := stop_crawling c; circuit_breaker := circuit_breaker c;
     error_counts := v; site_mapper := site_mapper c |}.

Definition with_site_mapper (v : SiteMapper.t) (c : t) : t :=
  {| config := config c; url_handlers := url_handlers c;
     visited_urls := visited_urls c; failed_urls := failed_urls c;
     total_links := total_links c; links_semaphore := links_semaphore c;
     stop_crawling := stop_crawling c; circuit_breaker := circuit_breaker c;
     error_counts := error_counts c; site_mapper := v |}.

(** [self.links_semaphore.release()] and a successful [acquire()]. *)
Definition release (c : t) : t := with_links_semaphore (links_semaphore c + 1) c.
Definition acquire (c : t) : t := with_links_semaphore (links_semaphore c - 1) c.

(** [self.error_counts[error_type] += 1]. *)
Definition count_error (error_type : string) (c : t) : t :=
  with_error_counts
    (<[error_type := default 0 (error_counts c !! error_type) + 1]> (error_counts c)) c.

Definition non_html_extensions : list string :=
  [".pdf"; ".doc"; ".docx"; ".ppt"; ".pptx"; ".xls"; ".xlsx";
   ".zip"; ".rar"; ".tar"; ".gz"; ".jpg"; ".jpeg"; ".png"; ".gif";
   ".mp3"; ".mp4"; ".avi"; ".mov"; ".wmv"; ".flv"; ".csv"; ".xml"].

(** What one [session.get(url)] and the reading of its body come to. *)
Inductive body :=
| NonHtml
| DecodeError
| Html (hrefs : list string) (content : ContentExtractor.Content).

Inductive outcome :=
| Response (status : Z) (b : body)
| TimeoutError
| ClientError (class_name : string)
| OtherError (class_name : string).

(** The errors the retry loop answers with a backoff and another attempt. *)
Definition retryable (o : outcome) : bool :=
  match o with
  | Response status _ => (500 <=? status) && (status <? 600)
  | TimeoutError | ClientError _ => true
  | OtherError _ => false
  end.

(** What the outside world sees a task do. *)
Inductive effect :=
| SemAcquire
| SemRelease
| Sleep (seconds : Q)
| HttpGet (url : string).

(** Where a [_crawl_url] coroutine is suspended. *)
Inductive pc :=
| Start
| Acquiring
| Sleeping (retry_count : Z)
| Fetching (retry_count : Z)
| Backoff (retry_count : Z)
| Gathering (children : list nat)
| Done
| Raised (class_name : string).

Record Task := {
  url : string;
  depth : Z;
  origin_url : string;
  at_ : pc
}.

(** One scheduling decision of the event loop together with what the
    environment answers to the resumed task: the clock, the outcome of the
    request (read by a task resumed in [Fetching]) and the value of
    [random.uniform(0, 1)]. *)
Record Tick := {
  who : nat;
  now : Z;
  response : outcome;
  jitter : Q
}.

Section WithExternals.
Context (ext : Externals).

(** [_should_crawl] past the stop check and the handler lookup.  The list
    given to [all] is built in full, so [is_open] is always called. *)
Definition should_crawl_checks (h : URLHandler.t) (now : Z) (u : string)
    (d : Z) (c : t) : bool * t :=
  let domain := netloc (urlparse ext u) in
  let p := Py.lower (path (urlparse ext u)) in
  if Py.any (λ e, Py.endswith e p) non_html_extensions then (false, c)
  else
    let '(is_open, cb) := CircuitBreaker.is_open now domain (circuit_breaker c) in
    (bool_decide (u ∉ visited_urls c)
     && bool_decide (u ∉ failed_urls c)
     && (d <=? Config.max_depth (config c))
     && URLHandler.is_valid_url ext h u
     && URLHandler.can_fetch ext h u (Config.user_agent (config c))
     && negb is_open,
     with_circuit_breaker cb c).

(** [_should_crawl(url, depth, origin_url)]; [None] is the [KeyError] of
    [self.url_handlers[origin_url]]. *)
Definition _should_crawl (now : Z) (u : string) (d : Z) (origin : string)
    (c : t) : option (bool * t) :=
  if stop_crawling c then Some (false, c)
  else
    match url_handlers c !! origin with
    | None => None
    | Some h => Some (should_crawl_checks h now u d c)
    end.

(** Leaving through [finally]. *)
Definition finish (c : t) : t * pc * list Task * list effect :=
  (release c, Done, [], [SemRelease]).

(** An early [return] of the admission part: the explicit [release()]
    and then the one in [finally]. *)
Definition reject (c : t) : t * pc * list Task * list effect :=
  (release (release c), Done, [], [SemRelease; SemRelease]).

(** An exception leaving [_crawl_url] through [finally]. *)
Definition propagate (name : string) (c : t) : t * pc * list Task * list effect :=
  (release c, Raised name, [], [SemRelease]).

(** The last [except Exception] clause, for anything but a timeout. *)
Definition on_other_exception (name : string) (u : string) (c : t)
  : t * pc * list Task * list effect :=
  finish (with_failed_urls ({[u]} ∪ failed_urls c) (count_error name c)).

(** The head of [while retry_count <= self.config.max_retries], up to
    the [await asyncio.sleep(self.config.delay)]. *)
Definition loop_head (retry_count : Z) (c : t) : t * pc * list Task * list effect :=
  if retry_count <=? Config.max_retries (config c)
  then (c, Sleeping retry_count, [], [Sleep (Config.delay (config c))])
  else finish c.

(** An exception raised while an outcome is handled.  In the body of the
    loop and in the inner [except asyncio.TimeoutError] it reaches the last
    [except Exception] clause ([caught]); raised inside an [except] clause
    of the outer [try] it leaves [_crawl_url]. *)
Definition raise_in (caught : bool) (name : string) (u : string) (c : t)
  : t * pc * list Task * list effect :=
  if caught then on_other_exception name u c else propagate name c.

(** The shared tail of the retryable branches: the breaker is told, then
    either the URL is given up or the backoff sleep starts.
    [retry_delay * (2 ** retry_count)] turns the power into a [float],
    which raises [OverflowError] from 2^1024 on. *)
Definition on_retryable (tk : Tick) (caught : bool) (error_type : string)
    (u : string) (retry_count : Z) (c : t) : t * pc * list Task * list effect :=
  let domain := netloc (urlparse ext u) in
  let c := count_error error_type c in
  match CircuitBreaker.record_failure (now tk) domain (circuit_breaker c) with
  | CircuitBreaker.Overflowed cb =>
      raise_in caught "OverflowError" u (with_circuit_breaker cb c)
  | CircuitBreaker.Returned cb =>
      let c := with_circuit_breaker cb c in
      if retry_count =? Config.max_retries (config c)
      then finish (with_failed_urls ({[u]} ∪ failed_urls c) c)
      else if 1024 <=? retry_count
      then raise_in caught "OverflowError" u c
      else
        let backoff_time :=
          (Config.retry_delay (config c) * inject_Z (2 ^ retry_count) + jitter tk)%Q in
        (c, Backoff retry_count, [], [Sleep backoff_time])
  end.

(** The links for which [_should_crawl(link, depth + 1, origin_url)]
    holds, in order; [None] once a call raised. *)
Fixpoint select_children (now : Z) (origin : string) (d : Z)
    (ls : list string) (c : t) : option (list string) * t :=
  match ls with
  | [] => (Some [], c)
  | link :: rest =>
      match _should_crawl now link (d + 1) origin c with
      | None => (None, c)
      | Some (ok, c1) =>
          let '(r, c2) := select_children now origin d rest c1 in
          ((if ok then cons link <$> r else r), c2)
      end
  end.

(** The [status == 200] branch once the body is decoded. *)
Definition on_page (tk : Tick) (next_id : nat) (tsk : Task)
    (hrefs : list string) (content : ContentExtractor.Content) (c : t)
  : t * pc * list Task * list effect :=
  let u := url tsk in
  let domain := netloc (urlparse ext u) in
  let c := with_circuit_breaker
             (CircuitBreaker.record_success domain (circuit_breaker c)) c in
  match url_handlers c !! origin_url tsk with
  | None => on_other_exception "KeyError" u c
  | Some h =>
      let links := URLHandler.extract_links ext h hrefs in
      let internal_links :=
        filter (λ link, URLHandler.is_internal_url ext h link = true) links in
      let c := with_site_mapper
                 (SiteMapper.add_page (now tk) u internal_links (depth tsk)
                    content (site_mapper c)) c in
      let c := with_visited_urls ({[u]} ∪ visited_urls c) c in
      let c := with_total_links (total_links c + 1) c in
      let c := if Config.max_links (config c) <=? total_links c
               then with_stop_crawling true c else c in
      if (depth tsk <? Config.max_depth (config c)) && negb (stop_crawling c)
      then
        match select_children (now tk) (origin_url tsk) (depth tsk)
                internal_links c with
        | (None, c) => on_other_exception "KeyError" u c
        | (Some [], c) => finish c
        | (Some kids, c) =>
            (c, Gathering (seq next_id (length kids)),
             map (λ link, {| url := link; depth := depth tsk + 1;
                             origin_url := origin_url tsk; at_ := Start |}) kids,
             [])
        end
      else finish c
  end.

(** The body of [async with session.get(url) as response] and the
    [except] clauses around it. *)
Definition on_outcome (tk : Tick) (next_id : nat) (tsk : Task)
    (retry_count : Z) (c : t)
  : t * pc * list Task * list effect :=
  let u := url tsk in
  match response tk with
  | Response status b =>
      if status =? 200 then
        match b with
        | NonHtml | DecodeError =>
            finish (with_visited_urls ({[u]} ∪ visited_urls c) c)
        | Html hrefs content => on_page tk next_id tsk hrefs content c
        end
      else if (500 <=? status) && (status <? 600) then
        on_retryable tk true ("HTTP " +:+ pretty status) u retry_count c
      else if (400 <=? status) && (status <? 500) then
        finish (with_failed_urls ({[u]} ∪ failed_urls c)
                  (count_error ("HTTP " +:+ pretty status) c))
      else
        finish (with_failed_urls ({[u]} ∪ failed_urls c)
                  (count_error ("HTTP " +:+ pretty status) c))
  | TimeoutError => on_retryable tk true "Timeout" u retry_count c
  | ClientError name => on_retryable tk false name u retry_count c
  | OtherError name => on_other_exception name u c
  end.

(** The admission part of [_crawl_url], run once a permit is held. *)
Definition admission (tk : Tick) (tsk : Task) (c : t)
  : t * pc * list Task * list effect :=
  let u := url tsk in
  match url_handlers c !! origin_url tsk with
  | None => propagate "KeyError" c
  | Some h =>
      if URLHandler._is_excluded_url ext h u then reject c
      else
        match _should_crawl (now tk) u (depth tsk) (origin_url tsk) c with
        | None => propagate "KeyError" c
        | Some (false, c) => reject c
        | Some (true, c) =>
            let domain := netloc (urlparse ext u) in
            let '(is_open, cb) :=
              CircuitBreaker.is_open (now tk) domain (circuit_breaker c) in
            let c := with_circuit_breaker cb c in
            if is_open then reject c else loop_head 0 c
        end
  end.

Definition prepend (es : list effect) (r : t * pc * list Task * list effect)
  : t * pc * list Task * list effect :=
  let '(c, p, spawned, es') := r in (c, p, spawned, es ++ es').

(** How [asyncio.gather] over the children stands: an exception of a
    child is passed on at once, otherwise all of them must be done. *)
Fixpoint gathered (child_at : nat → option pc) (children : list nat)
  : option (option string) :=
  match children with
  | [] => Some None
  | i :: rest =>
      match child_at i with
      | Some (Raised name) => Some (Some name)
      | Some Done => gathered child_at rest
      | _ =>
          match gathered child_at rest with
          | Some (Some name) => Some (Some name)
          | _ => None
          end
      end
  end.

(** Resuming the coroutine [tsk] until its next [await]: the new crawler
    state, where the coroutine stops, the child coroutines it has
    scheduled and the effects it has had.  [child_at] tells where the
    tasks of the event loop stand and [next_id] is the number the next
    scheduled task gets. *)
Definition resume (tk : Tick) (child_at : nat → option pc) (next_id : nat)
    (tsk : Task) (c : t)
  : t * pc * list Task * list effect :=
  match at_ tsk with
  | Start =>
      if stop_crawling c then (c, Done, [], [])
      else if links_semaphore c =? 0 then (c, Done, [], [])
      else (c, Acquiring, [], [])
  | Acquiring =>
      if 0 <? links_semaphore c
      then prepend [SemAcquire] (admission tk tsk (acquire c))
      else (c, Done, [], [])
  | Sleeping retry_count =>
      (c, Fetching retry_count, [], [HttpGet (url tsk)])
  | Fetching retry_count => on_outcome tk next_id tsk retry_count c
  | Backoff retry_count => loop_head (retry_count + 1) c
  | Gathering children =>
      match gathered child_at children with
      | Some None => finish c
      | Some (Some name) => on_other_exception name (url tsk) c
      | None => (c, Gathering children, [], [])
      end
  | Done => (c, Done, [], [])
  | Raised name => (c, Raised name, [], [])
  end.

(** *** The event loop

    The tasks of the loop in the order they were scheduled, and the
    effects they have had so far, each with the number of its task. *)
Record World := {
  crawler : t;
  tasks : list Task;
  log : list (nat * effect)
}.

Definition at_pc (p : pc) (tsk : Task) : Task :=
  {| url := url tsk; depth := depth tsk; origin_url := origin_url tsk; at_ := p |}.

(** The event loop resumes task [who tk]; a number that names no task
    changes nothing. *)
Definition step (tk : Tick) (w : World) : World :=
  match tasks w !! who tk with
  | None => w
  | Some tsk =>
      let child_at := λ i, at_ <$> tasks w !! i in
      let '(c, p, spawned, es) :=
        resume tk child_at (length (tasks w)) tsk (crawler w) in
      {| crawler := c;
         tasks := <[who tk := at_pc p tsk]> (tasks w) ++ spawned;
         log := log w ++ map (pair (who tk)) es |}
  end.

Definition run (sched : list Tick) (w : World) : World :=
  fold_left (λ w tk, step tk w) sched w.

(** The handler [crawl] builds for one seed. *)
Definition handler_for (cfg : Config.CrawlerConfig) (u : string) : URLHandler.t :=
  URLHandler.set_same_path_only (Config.same_path_only cfg)
    (URLHandler.new ext u (Config.respect_robots_txt cfg)
       (Config.exclude_keywords cfg)).

Definition seed_task (u : string) : Task :=
  {| url := u; depth := 0; origin_url := u; at_ := Start |}.

(** [crawl(start_urls)] up to the [await asyncio.gather( *tasks)]: the
    argument is made a list, a handler is stored for each seed and one
    task is scheduled for each. *)
Definition crawl_start (a : SiteMapper.start_urls_arg) (c : t) : World :=
  let start_urls := SiteMapper.as_list a in
  let handlers :=
    fold_left (λ hs u, <[u := handler_for (config c) u]> hs)
              start_urls (url_handlers c) in
  {| crawler := with_url_handlers handlers c;
     tasks := map seed_task start_urls;
     log := [] |}.

Inductive crawl_result :=
| Pending
| Raises (class_name : string)
| Returns (r : SiteMapper.Report).

(** [crawl(start_urls)] under the schedule [sched]: what the caller has
    once the schedule is used up; [end_time] is the clock when the
    report is built. *)
Definition crawl (a : SiteMapper.start_urls_arg) (sched : list Tick)
    (end_time : Z) (c : t) : crawl_result :=
  let w := run sched (crawl_start a c) in
  let seeds := seq 0 (length (SiteMapper.as_list a)) in
  match gathered (λ i, at_ <$> tasks w !! i) seeds with
  | None => Pending
  | Some (Some name) => Raises name
  | Some None =>
      Returns (SiteMapper.generate_output end_time
                 (SiteMapper.StrList (SiteMapper.as_list a))
                 (site_mapper (crawler w)))
  end.

(** Tasks that hold an accepted URL and may still count it. *)
Definition in_flight (tsk : Task) : bool :=
  match at_ tsk with
  | Sleeping _ | Fetching _ | Backoff _ => true
  | _ => false
  end.

Fixpoint count_in_flight (ts : list Task) : Z :=
  match ts with
  | [] => 0
  | tsk :: rest => (if in_flight tsk then 1 else 0) + count_in_flight rest
  end.

(** One coroutine resumed again and again, each time finding the shared
    state as the other tasks have left it: [inputs] pairs the answer of
    the environment with that state. *)
Fixpoint drive (inputs : list (Tick * t)) (tsk : Task)
  : pc * list effect :=
  match inputs with
  | [] => (at_ tsk, [])
  | (tk, c) :: rest =>
      let '(_, p, _, es) := resume tk (λ _, None) O tsk c in
      let '(p', es') := drive rest (at_pc p tsk) in
      (p', es ++ es')
  end.

(** The effects of a URL whose attempts all fail with a retryable
    error, from the first request on: [js] are the jitters drawn. *)
Fixpoint attempts (cfg : Config.CrawlerConfig) (u : string)
    (retry_count : Z) (js : list Q) : list effect :=
  match js with
  | [] => [HttpGet u; SemRelease]
  | j :: js' =>
      HttpGet u
        :: Sleep (Config.retry_delay cfg * inject_Z (2 ^ retry_count) + j)%Q
        :: Sleep (Config.delay cfg)
        :: attempts cfg u (retry_count + 1) js'
  end.

End WithExternals.

End Crawler.

(** ** [src/url_manager.py] *)

Module URLManager.

Record t := {
  base_url : string;
  base_domain : string;
  url_queue : list string;
  visited_urls : gset string
}.

Section WithExternals.
Context (ext : Externals).
(** [urllib.parse.urljoin(base, url)]. *)
Context (urljoin : string → string → string).

Definition new (base : string) : t :=
  {| base_url := base;
     base_domain := netloc (urlparse ext base);
     url_queue := [base];
     visited_urls := ∅ |}.

Definition is_internal_link (m : t) (u : string) : bool :=
  String.eqb (netloc (urlparse ext u)) (base_domain m).

Definition normalize_url (m : t) (u : string) : string :=
  let u := urljoin (base_url m) u in
  let parsed := urlparse ext u in
  scheme parsed +:+ "://" +:+ netloc parsed +:+ path parsed.

Definition add_url (u : string) (m : t) : t :=
  let normalized_url := normalize_url m u in
  if is_internal_link m normalized_url
     && bool_decide (normalized_url ∉ visited_urls m)
     && bool_decide (normalized_url ∉ url_queue m)
  then {| base_url := base_url m; base_domain := base_domain m;
          url_queue := url_queue m ++ [normalized_url];
          visited_urls := visited_urls m |}
  else m.

(** [get_next_url()]: the [IndexError] of an empty deque gives [None]. *)
Definition get_next_url (m : t) : option string * t :=
  match url_queue m with
  | [] => (None, m)
  | u :: rest =>
      (Some u,
       {| base_url := base_url m; base_domain := base_domain m;
          url_queue := rest;
          visited_urls := {[u]} ∪ visited_urls m |})
  end.

Definition has_urls (m : t) : bool := negb (Nat.eqb (length (url_queue m)) 0).

Definition get_visited_count (m : t) : nat := size (visited_urls m).

(** A caller's use of the manager; the URLs handed out, latest first. *)
Inductive call :=
| AddUrl (u : string)
| GetNextUrl.

Fixpoint run_from (calls : list call) (m : t) (handed : list string)
  : t * list string :=
  match calls with
  | [] => (m, handed)
  | AddUrl u :: rest => run_from rest (add_url u m) handed
  | GetNextUrl :: rest =>
      let '(r, m') := get_next_url m in
      run_from rest m' (match r with Some u => u :: handed | None => handed end)
  end.

Definition run (calls : list call) (base : string) : t * list string :=
  run_from calls (new base) [].

End WithExternals.

End URLManager.

(** ** [src/main.py]: the URL file *)

Module Main.

Definition section_header : string := "[exclude_keywords]".

Section WithStrip.
(** [str.strip()]. *)
Context (strip : string → string).

(** [[line.strip() for line in f
      if line.strip() and not line.strip().startswith('#')]]. *)
Definition kept (line : string) : bool :=
  negb (String.eqb (strip line) "") && negb (Py.startswith "#" (strip line)).

Definition read_lines (f : list string) : list string :=
  map strip (filter (λ line, kept line = true) f).

(** [lines.index(x)] where [x in lines]. *)
Fixpoint index (x : string) (lines : list string) : option nat :=
  match lines with
  | [] => None
  | l :: rest =>
      if String.eqb l x then Some O
      else S <$> index x rest
  end.

(** The seeds and the exclude keywords [main] takes from the lines of the
    URL file, after the keywords of the command line; [None] is the
    [return 1] for a file without URLs. *)
Definition read_url_file (f : list string) (cli_keywords : list string)
  : option (list string * list string) :=
  let lines := read_lines f in
  let '(urls, exclude_keywords) :=
    match index section_header lines with
    | Some keyword_section_index =>
        (take keyword_section_index lines,
         cli_keywords ++ drop (keyword_section_index + 1) lines)
    | None => (lines, cli_keywords)
    end in
  match urls with
  | [] => None
  | _ => Some (urls, exclude_keywords)
  end.

End WithStrip.

End Main.

(** ** Vocabulary of the statements *)

Module Spec.

(** [c in s] for one character. *)
Fixpoint mem_char (c : ascii) (s : string) : bool :=
  match s with
  | EmptyString => false
  | String c' r => Ascii.eqb c' c || mem_char c r
  end.

Definition no_newline (s : string) : Prop := mem_char Py.newline s = false.

(** The number of requests among the effects. *)
Fixpoint count_gets (es : list Crawler.effect) : Z :=
  match es with
  | [] => 0
  | Crawler.HttpGet _ :: r => 1 + count_gets r
  | _ :: r => count_gets r
  end.

(** The number of [release()] calls among the effects. *)
Fixpoint count_releases (es : list Crawler.effect) : Z :=
  match es with
  | [] => 0
  | Crawler.SemRelease :: r => 1 + count_releases r
  | _ :: r => count_releases r
  end.

(** One failed attempt of the retry loop: the task is resumed from the
    pacing sleep, from the request and from the backoff sleep. *)
Definition round : Type :=
  (Crawler.Tick * Crawler.t) * (Crawler.Tick * Crawler.t) * (Crawler.Tick * Crawler.t).

Definition round_inputs (r : round) : list (Crawler.Tick * Crawler.t) :=
  let '(a, b, c) := r in [a; b; c].

Definition round_jitter (r : round) : Q :=
  let '(_, b, _) := r in Crawler.jitter (fst b).

(** The answer is a retryable failure, and telling the breaker does not
    raise: the deadline of a circuit opened now is a [datetime]. *)
Definition fails_retryably (cfg : Config.CrawlerConfig)
    (b : Crawler.Tick * Crawler.t) : Prop :=
  Crawler.config (snd b) = cfg
  ∧ Crawler.retryable (Crawler.response (fst b)) = true
  ∧ CircuitBreaker.deadline_ok (Crawler.now (fst b))
      (CircuitBreaker.timeout (Crawler.circuit_breaker (snd b))) = true.

Definition round_ok (cfg : Config.CrawlerConfig) (r : round) : Prop :=
  let '(a, b, c) := r in
  Crawler.config (snd a) = cfg ∧ fails_retryably cfg b
  ∧ Crawler.config (snd c) = cfg.

(** The failures [except Exception] catches. *)
Definition only_Exception {A} (r : ContentExtractor.result A) : Prop :=
  ∀ e, r = ContentExtractor.Raise e → ContentExtractor.is_Exception e = true.

(** The helpers fail, if they fail, with an [Exception]. *)
Definition ordinary_failures (bs : ContentExtractor.BS4) : Prop :=
  (∀ html, only_Exception (ContentExtractor.BeautifulSoup bs html))
  ∧ (∀ s, only_Exception (ContentExtractor._preserve_code_blocks bs s))
  ∧ (∀ s, only_Exception (ContentExtractor._remove_unwanted_elements bs s))
  ∧ (∀ s, only_Exception (ContentExtractor._extract_title bs s))
  ∧ (∀ s, only_Exception (ContentExtractor._extract_main_content bs s)).

(** Exclusion depends on the handler through its keywords only. *)
Definition excluded_by (ext : Externals) (keywords : list string) (u : string)
  : bool :=
  URLHandler._is_excluded_url ext
    {| URLHandler.base_url := ""; URLHandler.base_domain := "";
       URLHandler.base_path_prefix := ""; URLHandler.respect_robots := false;
       URLHandler.same_path_only := false;
       URLHandler.exclude_keywords := keywords |} u.

(** A coroutine past the admission checks. *)
Definition past_admission (p : Crawler.pc) : Prop :=
  match p with
  | Crawler.Sleeping _ | Crawler.Fetching _ | Crawler.Backoff _
  | Crawler.Gathering _ => True
  | _ => False
  end.

(** [c'] differs from [c] in the circuit breaker at most. *)
Definition only_breaker (c c' : Crawler.t) : Prop :=
  c' = Crawler.with_circuit_breaker (Crawler.circuit_breaker c') c.

(** [in_flight] as a number, on the place a coroutine is at. *)
Definition pc_in_flight (p : Crawler.pc) : Z :=
  match p with
  | Crawler.Sleeping _ | Crawler.Fetching _ | Crawler.Backoff _ => 1
  | _ => 0
  end.

(** With no permit at all nothing ever leaves [Start]. *)
Definition idle (w : Crawler.World) : Prop :=
  Crawler.links_semaphore (Crawler.crawler w) = 0
  ∧ Forall (λ tsk, Crawler.at_ tsk = Crawler.Start ∨ Crawler.at_ tsk = Crawler.Done)
           (Crawler.tasks w).

(** Only URLs that are not excluded have passed admission, been
    requested or been recorded. *)
Definition clean (ext : Externals) (kw : list string) (w : Crawler.World) : Prop :=
  (∀ o h, Crawler.url_handlers (Crawler.crawler w) !! o = Some h →
          URLHandler.exclude_keywords h = kw)
  ∧ Forall (λ tsk, past_admission (Crawler.at_ tsk) →
                   excluded_by ext kw (Crawler.url tsk) = false)
           (Crawler.tasks w)
  ∧ (∀ u, u ∈ Crawler.visited_urls (Crawler.crawler w) →
          excluded_by ext kw u = false)
  ∧ (∀ u, u ∈ Crawler.failed_urls (Crawler.crawler w) →
          excluded_by ext kw u = false)
  ∧ (∀ u, is_Some (SiteMapper.site_map
                     (Crawler.site_mapper (Crawler.crawler w)) !! u) →
          excluded_by ext kw u = false)
  ∧ (∀ i u, (i, Crawler.HttpGet u) ∈ Crawler.log w →
            excluded_by ext kw u = false).

(** The state of a [URLManager] after some calls, with the URLs it has
    handed out: nothing is queued twice, nothing queued or handed out
    again after a visit, and the visited set is what was handed out. *)
Definition manager_ok (ext : Externals) (base : string) (m : URLManager.t)
    (handed : list string) : Prop :=
  NoDup (URLManager.url_queue m)
  ∧ NoDup handed
  ∧ (∀ u, u ∈ URLManager.url_queue m → u ∉ URLManager.visited_urls m)
  ∧ (∀ u, u ∈ handed ↔ u ∈ URLManager.visited_urls m)
  ∧ size (URLManager.visited_urls m) = length handed
  ∧ URLManager.base_domain m = netloc (urlparse ext base)
  ∧ (∀ u, u ∈ URLManager.url_queue m ∨ u ∈ handed →
          u = base ∨ URLManager.is_internal_link ext m u = true).

End Spec.

(** ** Concrete instances *)

Module Examples.

(** [urlparse] on the URLs of the examples. *)
Definition parse (u : string) : ParseResult :=
  if String.eqb u "https://a.test"
  then {| scheme := "https"; netloc := "a.test"; path := "" |}
  else if String.eqb u "https://b.test"
  then {| scheme := "https"; netloc := "b.test"; path := "" |}
  else if String.eqb u "https://a.test/login"
  then {| scheme := "https"; netloc := "a.test"; path := "/login" |}
  else {| scheme := ""; netloc := ""; path := u |}.

Definition ext : Externals :=
  {| urlparse := parse; robot_parser_can_fetch := λ _ _ _, true |}.

Definition cfg (links retries : Z) : Config.CrawlerConfig :=
  {| Config.max_depth := 3; Config.max_links := links;
     Config.delay := 1%Q; Config.timeout := 30;
     Config.exclude_keywords := [];
     Config.user_agent := "WebCrawlerExtractor/1.0";
     Config.respect_robots_txt := true; Config.same_path_only := false;
     Config.max_retries := retries; Config.retry_delay := 1%Q;
     Config.circuit_breaker_threshold := 5;
     Config.circuit_breaker_timeout := 300 |}.

Definition page (title : string) : ContentExtractor.Content :=
  {| ContentExtractor.title := title; ContentExtractor.url := "";
     ContentExtractor.content := "text"; ContentExtractor.code_blocks := [] |}.

Definition tick (i : nat) (o : Crawler.outcome) : Crawler.Tick :=
  {| Crawler.who := i; Crawler.now := 0; Crawler.response := o;
     Crawler.jitter := 0%Q |}.

Definition ok_page : Crawler.outcome :=
  Crawler.Response 200 (Crawler.Html [] (page "t")).

(** Two seeds under a budget of one page: both are accepted before
    either answer arrives, and both answers are pages. *)
Definition two_seeds : SiteMapper.start_urls_arg :=
  SiteMapper.StrList ["https://a.test"; "https://b.test"].

Definition both_in_flight : list Crawler.Tick :=
  [tick 0 ok_page; tick 0 ok_page; tick 1 ok_page; tick 1 ok_page;
   tick 0 ok_page; tick 1 ok_page].

Definition overshoot : list Crawler.Tick :=
  both_in_flight ++ [tick 0 ok_page; tick 1 ok_page].

(** A crawler about to admission the seed [https://a.test/login], which the
    pattern for authentication paths excludes. *)
Definition login_crawler : Crawler.t :=
  Crawler.crawler
    (Crawler.crawl_start ext (SiteMapper.OneStr "https://a.test/login")
       (Crawler.fresh (cfg 10 3) 20)).

Definition login_task : Crawler.Task :=
  {| Crawler.url := "https://a.test/login"; Crawler.depth := 0;
     Crawler.origin_url := "https://a.test/login";
     Crawler.at_ := Crawler.Acquiring |}.

(** A coroutine for [https://a.test] in its first pacing delay, under
    [max_retries = 1], and inputs that time out twice. *)
Definition retry_crawler : Crawler.t := Crawler.fresh (cfg 10 1) 20.

Definition retry_task (p : Crawler.pc) : Crawler.Task :=
  {| Crawler.url := "https://a.test"; Crawler.depth := 0;
     Crawler.origin_url := "https://a.test"; Crawler.at_ := p |}.

Definition timed_out : Crawler.Tick * Crawler.t :=
  (tick 0 Crawler.TimeoutError, retry_crawler).

Definition one_round : Spec.round := (timed_out, timed_out, timed_out).

Definition not_found : Crawler.Tick :=
  tick 0 (Crawler.Response 404 Crawler.NonHtml).

(** Failures at 0 s and 1 s open the circuit of [a.test] until 61 s; a
    success and a failure at 100 s follow, with no [is_open] in between. *)
Definition stale_calls : list CircuitBreaker.call :=
  [CircuitBreaker.RecordFailure "a.test" 0;
   CircuitBreaker.RecordFailure "a.test" 1000000;
   CircuitBreaker.RecordSuccess "a.test";
   CircuitBreaker.RecordFailure "a.test" 100000000].

(** 1026 attempts allowed, no base delay, and a server that always
    answers 500. *)
Definition overflow_cfg : Config.CrawlerConfig :=
  {| Config.max_depth := 3; Config.max_links := 10;
     Config.delay := 1%Q; Config.timeout := 30;
     Config.exclude_keywords := [];
     Config.user_agent := "WebCrawlerExtractor/1.0";
     Config.respect_robots_txt := true; Config.same_path_only := false;
     Config.max_retries := 1025; Config.retry_delay := 0%Q;
     Config.circuit_breaker_threshold := 5;
     Config.circuit_breaker_timeout := 300 |}.

Definition server_error : Crawler.Tick * Crawler.t :=
  (tick 0 (Crawler.Response 500 Crawler.NonHtml), Crawler.fresh overflow_cfg 20).

Definition overflow_round : Spec.round := (server_error, server_error, server_error).

(** A parser that rejects every input with a [TypeError]. *)
Definition failing_bs4 : ContentExtractor.BS4 :=
  {| ContentExtractor.Soup := unit;
     ContentExtractor.BeautifulSoup := λ _,
       ContentExtractor.Raise
         {| ContentExtractor.class_name := "TypeError";
            ContentExtractor.is_Exception := true |};
     ContentExtractor._preserve_code_blocks := λ s, ContentExtractor.Ok ([], s);
     ContentExtractor._remove_unwanted_elements := λ s, ContentExtractor.Ok s;
     ContentExtractor._extract_title := λ _, ContentExtractor.Ok "";
     ContentExtractor._extract_main_content := λ _, ContentExtractor.Ok "" |}.

End Examples.

(** * Verification *)

(** ** URL normalisation *)

#[local] Set Warnings "-clear-no-such-hyp".
#[local] Arguments Ascii.eqb : simpl never.
#[local] Arguments String.eqb : simpl never.

Section Normalize.
Import URLHandler Spec.

Lemma dot_star_dollar_no_newline s :
  mem_char Py.newline s = false → dot_star_dollar s = Some EmptyString.
Proof.
  induction s as [|c r IH]; simpl; [done|].
  destruct (Ascii.eqb c Py.newline); simpl; [done|auto].
Qed.

Lemma sub_fragment_clean s :
  mem_char Py.newline s = false →
  mem_char "#"%char (sub_fragment s) = false
  ∧ mem_char Py.newline (sub_fragment s) = false.
Proof.
  induction s as [|c r IH]; simpl; [done|].
  intros H. apply orb_false_iff in H as [Hc Hr].
  destruct (Ascii.eqb c "#") eqn:E.
  - rewrite dot_star_dollar_no_newline by done. done.
  - simpl. rewrite Hc, E. simpl. auto.
Qed.

Lemma sub_fragment_no_hash s :
  mem_char "#"%char s = false → sub_fragment s = s.
Proof.
  induction s as [|c r IH]; simpl; [done|].
  intros H. apply orb_false_iff in H as [Hc Hr].
  rewrite Hc. by rewrite IH.
Qed.

Lemma sub_trailing_slash_mem x s :
  mem_char x s = false → mem_char x (sub_trailing_slash s) = false.
Proof.
  induction s as [|c r IH]; simpl; [done|].
  intros H. apply orb_false_iff in H as [Hc Hr].
  destruct (Ascii.eqb c "/" && at_dollar r); [done|].
  simpl. rewrite Hc. simpl. auto.
Qed.

Lemma at_dollar_no_newline r :
  mem_char Py.newline r = false → at_dollar r = true → r = EmptyString.
Proof.
  destruct r as [|c [|c' r]]; simpl; try done.
  destruct (Ascii.eqb c Py.newline); done.
Qed.

Lemma sub_trailing_slash_fixed v :
  mem_char Py.newline v = false →
  sub_trailing_slash v = v ↔ Py.endswith "/" v = false.
Proof.
  induction v as [|c r IH]; [done|].
  intros H. simpl in H. apply orb_false_iff in H as [Hc Hr].
  specialize (IH Hr).
  cbn [sub_trailing_slash Py.endswith].
  destruct (Ascii.eqb c "/") eqn:Ec; simpl andb.
  - apply Ascii.eqb_eq in Ec. subst c.
    destruct (at_dollar r) eqn:Ed.
    + apply at_dollar_no_newline in Ed; [|done]. subst r. simpl. split; done.
    + assert (r ≠ EmptyString) by (intros ->; done).
      assert (String.eqb (String "/" r) "/" = false) as ->.
      { apply String.eqb_neq. congruence. }
      simpl. rewrite <- IH. split; [congruence|intros ->; done].
  - assert (String.eqb (String c r) "/" = false) as ->.
    { apply String.eqb_neq. intros [= -> _]. done. }
    simpl. rewrite <- IH. split; [congruence|intros ->; done].
Qed.

Lemma normalize_twice u :
  no_newline u →
  _normalize_url (_normalize_url u) = sub_trailing_slash (_normalize_url u)
  ∧ no_newline (_normalize_url u).
Proof.
  intros H. unfold _normalize_url, no_newline.
  destruct (sub_fragment_clean u H) as [Hh Hn].
  split; [|by apply sub_trailing_slash_mem].
  by rewrite (sub_fragment_no_hash (sub_trailing_slash _))
    by by apply sub_trailing_slash_mem.
Qed.

(** On a URL without a newline, normalising a second time changes
    nothing exactly when the first result does not end in a slash: one
    trailing slash is removed per call. *)
Theorem normalize_url_idempotent_iff (u : string) :
  no_newline u →
  _normalize_url (_normalize_url u) = _normalize_url u
  ↔ Py.endswith "/" (_normalize_url u) = false.
Proof.
  intros H. destruct (normalize_twice u H) as [-> Hn].
  by apply sub_trailing_slash_fixed.
Qed.

Lemma normalize_url_idempotent_iff_witness :
  _normalize_url (_normalize_url "https://example.com/page/#top")
  = _normalize_url "https://example.com/page/#top".
Proof.
  apply (normalize_url_idempotent_iff "https://example.com/page/#top");
    reflexivity.
Defined.

(** C5, where the code departs from it: of two trailing slashes each
    call removes one, so the result of the first call still ends in a
    slash and a second call changes it. *)
Lemma normalize_url_not_idempotent :
  _normalize_url (_normalize_url "https://example.com//")
  ≠ _normalize_url "https://example.com//".
Proof. vm_compute. discriminate. Qed.

End Normalize.

(** ** The circuit breaker *)

Section Breaker.
Import CircuitBreaker.

Lemma threshold_exec c cb : threshold (exec c cb) = threshold cb.
Proof.
  destruct c as [d now|d|d now]; simpl.
  - unfold record_failure. by repeat case_match.
  - unfold record_success. by case_match.
  - unfold is_open. repeat case_match; done.
Qed.

Lemma timeout_exec c cb : timeout (exec c cb) = timeout cb.
Proof.
  destruct c as [d now|d|d now]; simpl.
  - unfold record_failure. by repeat case_match.
  - unfold record_success. by case_match.
  - unfold is_open. repeat case_match; done.
Qed.

Lemma run_snoc calls c cb : run (calls ++ [c]) cb = exec c (run calls cb).
Proof. unfold run. by rewrite fold_left_app. Qed.

Lemma threshold_run calls cb : threshold (run calls cb) = threshold cb.
Proof.
  induction calls as [|c calls IH] using rev_ind; [done|].
  by rewrite run_snoc, threshold_exec.
Qed.

Lemma timeout_run calls cb : timeout (run calls cb) = timeout cb.
Proof.
  induction calls as [|c calls IH] using rev_ind; [done|].
  by rewrite run_snoc, timeout_exec.
Qed.

Lemma failure_count_record_failure now d' d cb :
  failure_count (state_of (record_failure now d' cb)) d
  = if decide (d = d') then failure_count cb d + 1 else failure_count cb d.
Proof.
  unfold record_failure, failure_count.
  repeat case_match; simpl; case_decide; subst;
    by rewrite ?lookup_insert_eq, ?lookup_insert_ne by done.
Qed.

Lemma open_record_failure now d' d cb :
  open_circuits (state_of (record_failure now d' cb)) !! d
  = if decide (d = d' ∧ open_circuits cb !! d = None
               ∧ threshold cb ≤ failure_count cb d + 1
               ∧ deadline_ok now (timeout cb) = true)
    then Some (now + seconds (timeout cb))
    else open_circuits cb !! d.
Proof.
  unfold record_failure.
  destruct (threshold cb <=? failure_count cb d' + 1) eqn:E;
    [apply Z.leb_le in E|apply Z.leb_gt in E]; simpl.
  - case_bool_decide as Ho; simpl.
    + destruct (deadline_ok now (timeout cb)) eqn:Ed; simpl.
      * case_decide as Hd.
        -- destruct Hd as (-> & _ & _). by rewrite lookup_insert_eq.
        -- destruct (decide (d = d')) as [->|Hne].
           ++ exfalso. apply Hd. done.
           ++ by rewrite lookup_insert_ne.
      * case_decide as Hd; [|done]. destruct Hd as (_ & _ & _ & ?). done.
    + case_decide as Hd; [|done]. destruct Hd as (-> & ? & _). done.
  - case_decide as Hd; [|done]. destruct Hd as (-> & _ & ? & _). lia.
Qed.

(** With a deadline that is a [datetime] the call returns. *)
Lemma record_failure_returns now d cb :
  deadline_ok now (timeout cb) = true →
  record_failure now d cb = Returned (state_of (record_failure now d cb)).
Proof. intros H. unfold record_failure. rewrite H. by repeat case_match. Qed.

Lemma failure_count_record_success d' d cb :
  failure_count (record_success d' cb) d
  = if decide (d = d') then 0 else failure_count cb d.
Proof.
  unfold record_success, failure_count.
  destruct (failures cb !! d') eqn:E; simpl; case_decide; subst;
    by rewrite ?lookup_insert_eq, ?lookup_insert_ne, ?E by done.
Qed.

Lemma is_open_spec now d cb :
  is_open now d cb
  = match open_circuits cb !! d with
    | Some until =>
        if until <? now
        then (false,
              {| threshold := threshold cb; timeout := timeout cb;
                 failures := <[d := 0]> (failures cb);
                 open_circuits := delete d (open_circuits cb) |})
        else (true, cb)
    | None => (false, cb)
    end.
Proof. done. Qed.

Lemma is_open_answer now d cb :
  fst (is_open now d cb) = true
  ↔ ∃ until, open_circuits cb !! d = Some until ∧ now ≤ until.
Proof.
  rewrite is_open_spec. destruct (open_circuits cb !! d) as [u|]; simpl.
  - destruct (u <? now) eqn:E; simpl;
      [apply Z.ltb_lt in E|apply Z.ltb_ge in E].
    + split; [done|]. intros (? & [= <-] & ?). lia.
    + split; [|done]. eauto.
  - split; [done|]. by intros (? & ? & _).
Qed.

(** The counter of the code is the spec's count of consecutive failures. *)
Lemma failure_count_exec c cb d past :
  failure_count cb d = consecutive_failures d past →
  failure_count (exec c cb) d = consecutive_failures d (observe c cb :: past).
Proof.
  intros H. destruct c as [d' now|d'|d' now]; simpl.
  - rewrite failure_count_record_failure.
    destruct (String.eqb_spec d d'); case_decide; try done; lia.
  - rewrite failure_count_record_success.
    destruct (String.eqb_spec d d'); case_decide; done.
  - rewrite is_open_spec.
    destruct (open_circuits cb !! d') as [u|]; [|done].
    destruct (u <? now); [|done]. simpl.
    unfold failure_count in *. simpl.
    destruct (String.eqb_spec d d') as [->|Hne].
    + by rewrite lookup_insert_eq.
    + by rewrite lookup_insert_ne.
Qed.

Lemma history_from_snoc calls c cb past :
  history_from (calls ++ [c]) cb past
  = observe c (run calls cb) :: history_from calls cb past.
Proof.
  revert cb past. induction calls as [|c' calls IH]; intros cb past; [done|].
  simpl. by rewrite IH.
Qed.

Lemma failure_count_history calls th to d :
  failure_count (run calls (new th to)) d
  = consecutive_failures d (history calls (new th to)).
Proof.
  induction calls as [|c calls IH] using rev_ind; [done|].
  unfold history. rewrite run_snoc, history_from_snoc.
  by apply failure_count_exec.
Qed.

(** With a positive threshold and deadlines that are [datetime]s, a
    circuit without an entry is below the threshold. *)
Lemma closed_below_threshold calls th to d :
  0 < th →
  (∀ d' now, RecordFailure d' now ∈ calls → deadline_ok now to = true) →
  open_circuits (run calls (new th to)) !! d = None →
  failure_count (run calls (new th to)) d < th.
Proof.
  intros Hth. revert d.
  induction calls as [|c calls IH] using rev_ind; intros d Hok; [done|].
  rewrite run_snoc.
  assert (∀ d' now, RecordFailure d' now ∈ calls → deadline_ok now to = true)
    as Hok'.
  { intros d' now Hin. eapply Hok. apply elem_of_app. by left. }
  pose proof (threshold_run calls (new th to)) as Ht. simpl in Ht.
  pose proof (timeout_run calls (new th to)) as Hto. simpl in Hto.
  set (cb := run calls (new th to)) in *.
  destruct c as [d' now|d'|d' now]; simpl.
  - rewrite open_record_failure, failure_count_record_failure.
    case_decide as Hd; [done|]. intros Hc.
    case_decide as Hdd; [|by apply IH]. subst d'.
    destruct (decide (th ≤ failure_count cb d + 1)); [|lia].
    exfalso. apply Hd. rewrite Ht, Hto. split_and!; try done.
    eapply Hok. apply elem_of_app. right. by apply list_elem_of_singleton.
  - rewrite failure_count_record_success. unfold record_success.
    case_decide; [lia|]. case_match; simpl; by apply IH.
  - rewrite is_open_spec.
    destruct (open_circuits cb !! d') as [u|] eqn:E; [|by apply IH].
    destruct (u <? now); [|by apply IH]. simpl.
    unfold failure_count. simpl.
    destruct (decide (d = d')) as [->|Hne].
    + rewrite lookup_insert_eq. simpl. lia.
    + rewrite lookup_delete_ne, lookup_insert_ne by done. by apply IH.
Qed.

(** C3, as the code has it: the state machine of a domain in terms of its
    entry in [open_circuits].  After any calls on a fresh breaker and one
    more call [c]:
    - the counter is the number of failures recorded for the domain since
      its last success or close;
    - a domain without an entry ([is_open] answers false) gets one exactly
      when [c] records a failure that brings this count to the threshold
      and the deadline is a [datetime] (otherwise [record_failure] raises
      after counting), and [is_open] then answers true up to the opening
      time plus the timeout; for a positive threshold the count was below
      the threshold;
    - an entry is removed only by an [is_open] asked after its deadline,
      which answers false and resets the counter to zero; until then the
      entry stays as it is, so a failure recorded while it exists, expired
      or not, neither opens nor extends the circuit. *)
Theorem circuit_opens_at_threshold_closes_after_timeout
    (th to : Z) (calls : list call) (c : call) (d : string) :
  let cb := run calls (new th to) in
  let cb' := exec c cb in
  let h' := history (calls ++ [c]) (new th to) in
  failure_count cb' d = consecutive_failures d h'
  ∧ (open_circuits cb !! d = None →
       (∀ t, fst (is_open t d cb) = false)
       ∧ (0 < th →
          (∀ d' now, RecordFailure d' now ∈ calls → deadline_ok now to = true) →
          failure_count cb d < th)
       ∧ (is_Some (open_circuits cb' !! d)
          ↔ ∃ now, c = RecordFailure d now
                   ∧ th ≤ consecutive_failures d h'
                   ∧ deadline_ok now to = true)
       ∧ (∀ now, c = RecordFailure d now → th ≤ consecutive_failures d h' →
            deadline_ok now to = true →
            open_circuits cb' !! d = Some (now + seconds to)
            ∧ ∀ t, t ≤ now + seconds to → fst (is_open t d cb') = true))
  ∧ (∀ until, open_circuits cb !! d = Some until →
       (∀ t, fst (is_open t d cb) = false ↔ until < t)
       ∧ (open_circuits cb' !! d = None
          ↔ ∃ now, c = IsOpen d now ∧ until < now)
       ∧ (open_circuits cb' !! d = None → failure_count cb' d = 0)
       ∧ (open_circuits cb' !! d ≠ None → open_circuits cb' !! d = Some until)).
Proof.
  intros cb cb' h'.
  assert (failure_count cb' d = consecutive_failures d h') as Hcount.
  { subst cb' cb h'. rewrite <- run_snoc. apply failure_count_history. }
  pose proof (threshold_run calls (new th to)) as Ht.
  pose proof (timeout_run calls (new th to)) as Hto.
  simpl in Ht, Hto. fold cb in Ht, Hto.
  split; [done|]. rewrite <- Hcount. clear Hcount h'. split.
  - intros Hclosed. split; [|split; [|split]].
    + intros t. rewrite is_open_spec, Hclosed. done.
    + intros Hth Hok. by apply closed_below_threshold.
    + subst cb'. destruct c as [d' now|d'|d' now]; simpl.
      * rewrite open_record_failure, failure_count_record_failure, Ht, Hto.
        case_decide as Hd.
        -- destruct Hd as (-> & _ & Hle & Hdl). rewrite decide_True by done.
           split; [|by eauto]. intros _. exists now. done.
        -- rewrite Hclosed. split; [by intros [? ?]|].
           intros (now' & [= <- <-] & Hle & Hdl).
           rewrite decide_True in Hle by done.
           exfalso. apply Hd. done.
      * unfold record_success. case_match; simpl; rewrite Hclosed;
          (split; [by intros [? ?]|by intros (? & ? & _)]).
      * rewrite is_open_spec.
        destruct (open_circuits cb !! d') as [u|] eqn:E; simpl.
        -- destruct (u <? now); simpl.
           ++ destruct (decide (d = d')) as [->|Hne]; [congruence|].
              rewrite lookup_delete_ne, Hclosed by done.
              split; [by intros [? ?]|by intros (? & ? & _)].
           ++ rewrite Hclosed.
              split; [by intros [? ?]|by intros (? & ? & _)].
        -- rewrite Hclosed. split; [by intros [? ?]|by intros (? & ? & _)].
    + intros now -> Hle Hdl. subst cb'. simpl in *.
      rewrite failure_count_record_failure, decide_True in Hle by done.
      assert (open_circuits (state_of (record_failure now d cb)) !! d
              = Some (now + seconds to)) as Hopen.
      { rewrite open_record_failure, Ht, Hto. by rewrite decide_True. }
      split; [done|]. intros t Hle'. apply is_open_answer. eauto.
  - intros u Hopen. split; [|split; [|split]].
    + intros t. rewrite is_open_spec, Hopen.
      destruct (u <? t) eqn:E; simpl;
        [apply Z.ltb_lt in E|apply Z.ltb_ge in E]; split; (done || lia).
    + subst cb'. destruct c as [d' now|d'|d' now]; simpl.
      * rewrite open_record_failure. case_decide as Hd.
        -- destruct Hd as (-> & ? & _). congruence.
        -- rewrite Hopen. split; [done|by intros (? & ? & _)].
      * unfold record_success. case_match; simpl; rewrite Hopen;
          (split; [done|by intros (? & ? & _)]).
      * rewrite is_open_spec.
        destruct (decide (d = d')) as [->|Hne].
        -- rewrite Hopen.
           destruct (u <? now) eqn:E; simpl;
             [apply Z.ltb_lt in E|apply Z.ltb_ge in E].
           ++ rewrite lookup_delete_eq. split; [|done]. intros _. eauto.
           ++ rewrite Hopen. split; [done|]. intros (? & [= <-] & ?). lia.
        -- assert (open_circuits
                     (match open_circuits cb !! d' with
                      | Some until =>
                          if until <? now
                          then (false,
                                {| threshold := threshold cb; timeout := timeout cb;
                                   failures := <[d' := 0]> (failures cb);
                                   open_circuits := delete d' (open_circuits cb) |})
                          else (true, cb)
                      | None => (false, cb)
                      end).2 !! d = Some u) as ->.
           { repeat case_match; simpl; by rewrite ?lookup_delete_ne. }
           split; [done|]. intros (? & [= -> _] & _). done.
    + subst cb'. destruct c as [d' now|d'|d' now]; simpl.
      * rewrite open_record_failure. case_decide as Hd.
        -- done.
        -- by rewrite Hopen.
      * unfold record_success. case_match; simpl; by rewrite Hopen.
      * rewrite is_open_spec.
        destruct (open_circuits cb !! d') as [u'|] eqn:E; simpl;
          [|by rewrite Hopen].
        destruct (u' <? now); simpl; [|by rewrite Hopen].
        destruct (decide (d = d')) as [->|Hne].
        -- intros _. unfold failure_count. simpl. by rewrite lookup_insert_eq.
        -- rewrite lookup_delete_ne by done. by rewrite Hopen.
    + subst cb'. destruct c as [d' now|d'|d' now]; simpl.
      * rewrite open_record_failure. case_decide as Hd; [|done].
        destruct Hd as (-> & ? & _). congruence.
      * unfold record_success. by case_match.
      * rewrite is_open_spec.
        destruct (open_circuits cb !! d') as [u'|] eqn:E; simpl; [|done].
        destruct (u' <? now); simpl; [|done].
        destruct (decide (d = d')) as [->|Hne].
        -- by rewrite lookup_delete_eq.
        -- by rewrite lookup_delete_ne.
Qed.

(** C7: a recorded success zeroes the domain's counter and nothing else:
    the open circuits, and so every answer of [is_open], stay as they
    were, as do the counters of the other domains. *)
Theorem record_success_resets_count_only (d : string) (cb : t) :
  failure_count (record_success d cb) d = 0
  ∧ open_circuits (record_success d cb) = open_circuits cb
  ∧ (∀ now d', fst (is_open now d' (record_success d cb))
               = fst (is_open now d' cb))
  ∧ (∀ d', d' ≠ d →
       failure_count (record_success d cb) d' = failure_count cb d')
  ∧ threshold (record_success d cb) = threshold cb
  ∧ timeout (record_success d cb) = timeout cb.
Proof.
  assert (open_circuits (record_success d cb) = open_circuits cb) as Ho.
  { unfold record_success. by case_match. }
  repeat split.
  - rewrite failure_count_record_success. by rewrite decide_True.
  - done.
  - intros now d'. rewrite !is_open_spec, Ho. repeat case_match; done.
  - intros d' Hne. rewrite failure_count_record_success.
    by rewrite decide_False.
  - apply (threshold_exec (RecordSuccess d)).
  - apply (timeout_exec (RecordSuccess d)).
Qed.

End Breaker.

(** ** One coroutine of [_crawl_url] *)

Section Coroutine.
Import Crawler Spec.
Context (ext : Externals).

Lemma at_at_pc p tsk : at_ (at_pc p tsk) = p.
Proof. done. Qed.

Lemma url_at_pc p tsk : url (at_pc p tsk) = url tsk.
Proof. done. Qed.

Lemma at_pc_at_pc p q tsk : at_pc p (at_pc q tsk) = at_pc p tsk.
Proof. done. Qed.

Lemma on_retryable_retry tk caught e u k c :
  CircuitBreaker.deadline_ok (now tk)
    (CircuitBreaker.timeout (circuit_breaker c)) = true →
  k ≠ Config.max_retries (config c) →
  k < 1024 →
  ∃ c', on_retryable ext tk caught e u k c
        = (c', Backoff k, [],
           [Sleep (Config.retry_delay (config c) * inject_Z (2 ^ k) + jitter tk)%Q]).
Proof.
  intros Hd Hk Hlt. unfold on_retryable. cbn [count_error with_error_counts circuit_breaker].
  rewrite (record_failure_returns _ _ _ Hd).
  cbn [with_circuit_breaker config count_error with_error_counts].
  destruct (k =? Config.max_retries (config c)) eqn:E;
    [apply Z.eqb_eq in E; done|].
  destruct (1024 <=? k) eqn:E2; [apply Z.leb_le in E2; lia|]. eauto.
Qed.

Lemma on_retryable_exhausted tk caught e u c :
  CircuitBreaker.deadline_ok (now tk)
    (CircuitBreaker.timeout (circuit_breaker c)) = true →
  ∃ c', on_retryable ext tk caught e u (Config.max_retries (config c)) c
        = (c', Done, [], [SemRelease]) ∧ u ∈ failed_urls c'.
Proof.
  intros Hd. unfold on_retryable. cbn [count_error with_error_counts circuit_breaker].
  rewrite (record_failure_returns _ _ _ Hd).
  cbn [with_circuit_breaker config count_error with_error_counts].
  rewrite Z.eqb_refl. eexists. split; [done|]. simpl.
  apply elem_of_union_l. by apply elem_of_singleton.
Qed.

(** From attempt 1024 on, a failure that is not the last allowed one ends
    in the [OverflowError] of the backoff (or of the breaker's deadline). *)
Lemma on_retryable_overflow tk caught e u k c :
  k ≠ Config.max_retries (config c) →
  1024 ≤ k →
  ∃ c' p, on_retryable ext tk caught e u k c = (c', p, [], [SemRelease])
          ∧ (p = Done ∨ p = Raised "OverflowError").
Proof.
  intros Hk Hge. unfold on_retryable, raise_in, on_other_exception, propagate, finish.
  destruct (CircuitBreaker.record_failure _ _ _) as [cb|cb].
  - cbn [with_circuit_breaker config count_error with_error_counts].
    destruct (k =? Config.max_retries (config c)) eqn:E;
      [apply Z.eqb_eq in E; done|].
    destruct (1024 <=? k) eqn:E2; [|apply Z.leb_gt in E2; lia].
    destruct caught; eauto.
  - destruct caught; eauto.
Qed.

Lemma retryable_on_outcome tk n tsk k c :
  retryable (response tk) = true →
  ∃ caught e, on_outcome ext tk n tsk k c
              = on_retryable ext tk caught e (url tsk) k c.
Proof.
  intros Hr. unfold on_outcome.
  destruct (response tk) as [status b| |name|name]; simpl in Hr; try done; eauto.
  apply andb_true_iff in Hr as [H1 H2]. rewrite H1, H2. simpl.
  destruct (status =? 200) eqn:E; [|eauto].
  apply Z.eqb_eq in E. apply Z.leb_le in H1. lia.
Qed.

Lemma drive_cons tk c rest tsk :
  drive ext ((tk, c) :: rest) tsk
  = (let '(_, p, _, es) := resume ext tk (λ _, None) O tsk c in
     let '(p', es') := drive ext rest (at_pc p tsk) in
     (p', es ++ es')).
Proof. done. Qed.

(** One failed attempt below the limits: request, backoff, pacing delay,
    and the coroutine is about to make the next attempt. *)
Lemma drive_round cfg r rest tsk k :
  at_ tsk = Sleeping k →
  round_ok cfg r →
  0 ≤ k < Config.max_retries cfg →
  k < 1024 →
  drive ext (round_inputs r ++ rest) tsk
  = (let '(p, es) := drive ext rest (at_pc (Sleeping (k + 1)) tsk) in
     (p, HttpGet (url tsk)
           :: Sleep (Config.retry_delay cfg * inject_Z (2 ^ k) + round_jitter r)%Q
           :: Sleep (Config.delay cfg) :: es)).
Proof.
  destruct r as [[[tka ca] [tkb cb]] [tkc cc]].
  intros Hat (Ha & (Hb & Hr & Hd) & Hc) Hk Hlt.
  cbn [fst snd round_jitter] in *. cbn [round_inputs app].
  rewrite drive_cons. unfold resume at 1. rewrite Hat.
  rewrite drive_cons. unfold resume at 1. rewrite at_at_pc.
  destruct (retryable_on_outcome tkb O (at_pc (Fetching k) tsk) k cb Hr)
    as (caught & e & ->).
  destruct (on_retryable_retry tkb caught e (url (at_pc (Fetching k) tsk)) k cb Hd)
    as [c' ->]; [rewrite Hb; lia|done|].
  rewrite drive_cons. unfold resume at 1. rewrite at_at_pc.
  unfold loop_head. rewrite Hb, Hc.
  destruct (k + 1 <=? Config.max_retries cfg) eqn:E;
    [|apply Z.leb_gt in E; lia].
  rewrite !at_pc_at_pc.
  destruct (drive ext rest (at_pc (Sleeping (k + 1)) tsk)) as [p es].
  done.
Qed.

(** The last allowed attempt: request, then the permit is given back. *)
Lemma drive_last cfg a b tsk :
  at_ tsk = Sleeping (Config.max_retries cfg) →
  fails_retryably cfg b →
  drive ext [a; b] tsk = (Done, [HttpGet (url tsk); SemRelease]).
Proof.
  destruct a as [tka ca], b as [tkb cb]. intros Hat (Hb & Hr & Hd).
  cbn [fst snd] in *.
  rewrite drive_cons. unfold resume at 1. rewrite Hat.
  rewrite drive_cons. unfold resume at 1. rewrite at_at_pc.
  destruct (retryable_on_outcome tkb O
              (at_pc (Fetching (Config.max_retries cfg)) tsk)
              (Config.max_retries cfg) cb Hr) as (caught & e & ->).
  destruct (on_retryable_exhausted tkb caught e
              (url (at_pc (Fetching (Config.max_retries cfg)) tsk)) cb Hd)
    as (c' & Hc' & _).
  rewrite Hb in Hc'. rewrite Hc'. done.
Qed.

(** Attempt 1024 when more are allowed: request, then the coroutine ends
    on the [OverflowError]. *)
Lemma drive_overflow cfg a b tsk :
  at_ tsk = Sleeping 1024 →
  1024 ≠ Config.max_retries cfg →
  config (snd b) = cfg →
  retryable (response (fst b)) = true →
  ∃ p, drive ext [a; b] tsk = (p, [HttpGet (url tsk); SemRelease])
       ∧ (p = Done ∨ p = Raised "OverflowError").
Proof.
  destruct a as [tka ca], b as [tkb cb]. intros Hat Hne Hb Hr.
  cbn [fst snd] in *.
  rewrite drive_cons. unfold resume at 1. rewrite Hat.
  rewrite drive_cons. unfold resume at 1. rewrite at_at_pc.
  destruct (retryable_on_outcome tkb O (at_pc (Fetching 1024) tsk) 1024 cb Hr)
    as (caught & e & ->).
  destruct (on_retryable_overflow tkb caught e
              (url (at_pc (Fetching 1024) tsk)) 1024 cb)
    as (c' & p & -> & Hp); [by rewrite Hb|lia|].
  exists p. split; [|done]. by destruct Hp as [-> | ->].
Qed.

Lemma drive_rounds cfg rounds last tsk k p :
  at_ tsk = Sleeping k →
  0 ≤ k →
  k + Z.of_nat (length rounds) ≤ Config.max_retries cfg →
  k + Z.of_nat (length rounds) ≤ 1024 →
  Forall (round_ok cfg) rounds →
  drive ext last (at_pc (Sleeping (k + Z.of_nat (length rounds))) tsk)
  = (p, [HttpGet (url tsk); SemRelease]) →
  drive ext (concat (map round_inputs rounds) ++ last) tsk
  = (p, attempts cfg (url tsk) k (map round_jitter rounds)).
Proof.
  revert tsk k.
  induction rounds as [|r rounds IH]; intros tsk k Hat Hk Hlen Hlen' Hok Hlast.
  - simpl in *. rewrite Z.add_0_r in Hlast. rewrite <- Hlast. f_equal.
    destruct tsk. simpl in *. by subst.
  - apply Forall_cons in Hok as [Hr1 Hok].
    cbn [length] in Hlen, Hlen', Hlast.
    cbn [map concat]. rewrite <- app_assoc.
    rewrite (drive_round cfg r _ tsk k) by (done || lia).
    assert (drive ext last
              (at_pc (Sleeping (k + 1 + Z.of_nat (length rounds)))
                 (at_pc (Sleeping (k + 1)) tsk))
            = (p, [HttpGet (url (at_pc (Sleeping (k + 1)) tsk)); SemRelease]))
      as Hlast'.
    { rewrite at_pc_at_pc, url_at_pc, <- Hlast. do 3 f_equal. lia. }
    rewrite (IH (at_pc (Sleeping (k + 1)) tsk) (k + 1)) by (done || lia).
    done.
Qed.

Lemma count_gets_attempts cfg u k js :
  count_gets (attempts cfg u k js) = Z.of_nat (length js) + 1.
Proof.
  revert k. induction js as [|j js IH]; intros k; [done|].
  cbn [attempts count_gets length]. rewrite IH. lia.
Qed.

(** Admission never sleeps for a backoff: a coroutine that comes out of
    it accepted has acquired its permit, started the pacing delay and is
    at attempt 0. *)
Lemma admission_starts_at_attempt_zero tk f n tsk c c' k sp es :
  at_ tsk = Acquiring →
  resume ext tk f n tsk c = (c', Sleeping k, sp, es) →
  k = 0 ∧ es = [SemAcquire; Sleep (Config.delay (config c))].
Proof.
  intros Hat. unfold resume. rewrite Hat.
  unfold admission, prepend, reject, propagate, loop_head, finish, _should_crawl,
    should_crawl_checks.
  intros H. repeat (case_match; simplify_eq; simpl in *); done.
Qed.

(** Up to [max_retries = 1024], a URL whose every attempt fails with a
    retryable error is requested [max_retries + 1] times, provided that
    telling the breaker never raises.  From its first pacing delay on
    the coroutine, whatever the other tasks do to the shared state between
    its steps, requests the URL at once and, after the failure numbered
    [k], sleeps [retry_delay * 2^k] plus the jitter drawn and then the
    pacing delay before the next request; the last failure ends it. *)
Theorem retryable_failures_make_max_retries_plus_one_attempts
    (cfg : Config.CrawlerConfig) (tsk : Task) (rounds : list round)
    (a b : Tick * t) :
  at_ tsk = Sleeping 0 →
  Z.of_nat (length rounds) = Config.max_retries cfg →
  Config.max_retries cfg ≤ 1024 →
  Forall (round_ok cfg) rounds →
  fails_retryably cfg b →
  let js := map round_jitter rounds in
  let result := drive ext (concat (map round_inputs rounds) ++ [a; b]) tsk in
  fst result = Done
  ∧ snd result = attempts cfg (url tsk) 0 js
  ∧ count_gets (snd result) = Config.max_retries cfg + 1.
Proof.
  intros Hat Hlen Hmax Hok Hb js result. subst result.
  rewrite (drive_rounds cfg rounds [a; b] tsk 0 Done); try (done || lia).
  - cbn [fst snd]. split; [done|]. split; [done|].
    rewrite count_gets_attempts. subst js. rewrite length_map. lia.
  - pose proof (drive_last cfg a b
                  (at_pc (Sleeping (0 + Z.of_nat (length rounds))) tsk)) as H.
    rewrite url_at_pc in H. apply H; [|done]. simpl. f_equal. lia.
Qed.

(** C4, where the code departs from it: when more than 1025 attempts are
    allowed ([max_retries >= 1025]) a URL whose every attempt fails with a
    retryable error is requested 1025 times only.  After the failure
    numbered 1024 the backoff [retry_delay * (2 ** 1024)] raises
    [OverflowError], which ends the coroutine. *)
Theorem retry_loop_stops_after_1025_attempts
    (cfg : Config.CrawlerConfig) (tsk : Task) (rounds : list round)
    (a b : Tick * t) :
  at_ tsk = Sleeping 0 →
  1025 ≤ Config.max_retries cfg →
  length rounds = 1024%nat →
  Forall (round_ok cfg) rounds →
  config (snd b) = cfg →
  retryable (response (fst b)) = true →
  let js := map round_jitter rounds in
  let result := drive ext (concat (map round_inputs rounds) ++ [a; b]) tsk in
  (fst result = Done ∨ fst result = Raised "OverflowError")
  ∧ snd result = attempts cfg (url tsk) 0 js
  ∧ count_gets (snd result) = 1025
  ∧ count_gets (snd result) < Config.max_retries cfg + 1.
Proof.
  intros Hat Hmax Hlen Hok Hb Hr js result. subst result.
  destruct (drive_overflow cfg a b (at_pc (Sleeping 1024) tsk))
    as (p & Hlast & Hp); [done|lia|done|done|].
  rewrite url_at_pc in Hlast.
  rewrite (drive_rounds cfg rounds [a; b] tsk 0 p); try (done || lia).
  - cbn [fst snd]. split; [done|]. split; [done|].
    rewrite count_gets_attempts. subst js. rewrite length_map, Hlen. lia.
  - rewrite Hlen. exact Hlast.
Qed.

End Coroutine.

(** ** How a coroutine leaves [_crawl_url] *)

Section Exits.
Import Crawler Spec.
Context (ext : Externals).

(** C8: a 4xx answer ends the coroutine at once: the URL is put in
    [failed_urls], the permit is given back, no request or sleep follows,
    and the circuit breaker (so the failure count of the domain), the
    visited set and the success counter are left as they were. *)
Theorem client_error_fails_at_once
    (tk : Tick) (f : nat → option pc) (n : nat) (tsk : Task) (k : Z) (c : t)
    (status : Z) (b : body) :
  at_ tsk = Fetching k →
  response tk = Response status b →
  400 ≤ status < 500 →
  let result := resume ext tk f n tsk c in
  result.1.1.2 = Done
  ∧ result.1.2 = []
  ∧ result.2 = [SemRelease]
  ∧ url tsk ∈ failed_urls result.1.1.1
  ∧ circuit_breaker result.1.1.1 = circuit_breaker c
  ∧ (∀ d, CircuitBreaker.failure_count (circuit_breaker result.1.1.1) d
          = CircuitBreaker.failure_count (circuit_breaker c) d)
  ∧ visited_urls result.1.1.1 = visited_urls c
  ∧ total_links result.1.1.1 = total_links c.
Proof.
  intros Hat Hresp Hs result. subst result.
  unfold resume. rewrite Hat. unfold on_outcome. rewrite Hresp.
  destruct (status =? 200) eqn:E1; [apply Z.eqb_eq in E1; lia|].
  destruct (500 <=? status) eqn:E2; [apply Z.leb_le in E2; lia|].
  destruct (400 <=? status) eqn:E3; [|apply Z.leb_gt in E3; lia].
  destruct (status <? 500) eqn:E4; [|apply Z.ltb_ge in E4; lia].
  simpl. repeat split; try done. apply elem_of_union_l. by apply elem_of_singleton.
Qed.

(** A finished coroutine does nothing more. *)
Lemma resume_done tk f n tsk c :
  at_ tsk = Done → resume ext tk f n tsk c = (c, Done, [], []).
Proof. intros Hat. unfold resume. by rewrite Hat. Qed.

(** C2, where the code departs from it: a coroutine that holds a permit
    and is turned away by the admission checks (excluded URL,
    [_should_crawl], open circuit) has called [release()] twice, so the
    semaphore ends one above where it was before the [acquire()]. *)
Theorem rejected_admission_releases_twice
    (tk : Tick) (f : nat → option pc) (n : nat) (tsk : Task) (c c' : t)
    (sp : list Task) (es : list effect) :
  at_ tsk = Acquiring →
  0 < links_semaphore c →
  0 ≤ Config.max_retries (config c) →
  resume ext tk f n tsk c = (c', Done, sp, es) →
  es = [SemAcquire; SemRelease; SemRelease]
  ∧ count_releases es = 2
  ∧ links_semaphore c' = links_semaphore c + 1.
Proof.
  intros Hat Hsem Hretries. unfold resume. rewrite Hat.
  destruct (0 <? links_semaphore c) eqn:E; [|apply Z.ltb_ge in E; lia].
  unfold admission, prepend, reject, propagate, loop_head, finish, _should_crawl,
    should_crawl_checks.
  intros H.
  repeat (case_match; simplify_eq; simpl in *);
    try (split; [done|split; [done|lia]]).
  all: match goal with
       | H : (0 <=? _) = false |- _ => apply Z.leb_gt in H; lia
       end.
Qed.

End Exits.

(** ** The event loop: budget and exclusion *)

Section Loop.
Import Crawler Spec.
Context (ext : Externals).

Lemma only_breaker_refl c : only_breaker c c.
Proof. by destruct c. Qed.

Lemma only_breaker_with cb c : only_breaker c (with_circuit_breaker cb c).
Proof. done. Qed.

Lemma only_breaker_trans c1 c2 c3 :
  only_breaker c1 c2 → only_breaker c2 c3 → only_breaker c1 c3.
Proof. unfold only_breaker. intros -> ->. done. Qed.

Lemma should_crawl_only_breaker now u d origin c ok c' :
  _should_crawl ext now u d origin c = Some (ok, c') → only_breaker c c'.
Proof.
  unfold _should_crawl, should_crawl_checks. intros H.
  repeat (case_match; simplify_eq);
    auto using only_breaker_refl, only_breaker_with.
Qed.

Lemma should_crawl_not_stopped now u d origin c c' :
  _should_crawl ext now u d origin c = Some (true, c') →
  stop_crawling c = false.
Proof. unfold _should_crawl. by case_match. Qed.

Lemma select_children_only_breaker now origin d ls c r c' :
  select_children ext now origin d ls c = (r, c') → only_breaker c c'.
Proof.
  revert c r c'. induction ls as [|l ls IH]; intros c r c' H; simpl in H.
  - simplify_eq. apply only_breaker_refl.
  - destruct (_should_crawl ext now l (d + 1) origin c) as [[ok c1]|] eqn:E.
    + destruct (select_children ext now origin d ls c1) as [r2 c2] eqn:E2.
      simplify_eq. eapply only_breaker_trans; [|by eapply IH].
      by eapply should_crawl_only_breaker.
    + simplify_eq. apply only_breaker_refl.
Qed.

Lemma in_flight_pc tsk :
  (if in_flight tsk then 1 else 0) = pc_in_flight (at_ tsk).
Proof. unfold in_flight, pc_in_flight. by destruct (at_ tsk). Qed.

Lemma count_in_flight_app ts1 ts2 :
  count_in_flight (ts1 ++ ts2) = count_in_flight ts1 + count_in_flight ts2.
Proof. induction ts1 as [|tsk ts1 IH]; simpl; lia. Qed.

Lemma count_in_flight_insert (ts : list Task) i tsk tsk' :
  ts !! i = Some tsk →
  count_in_flight (<[i := tsk']> ts)
  = count_in_flight ts - pc_in_flight (at_ tsk) + pc_in_flight (at_ tsk').
Proof.
  revert i. induction ts as [|t0 ts IH]; intros [|i] H; simplify_eq/=.
  - rewrite !in_flight_pc. lia.
  - rewrite (IH i) by done. lia.
Qed.

Lemma count_in_flight_start (ls : list string) (f : string → Task) :
  (∀ l, at_ (f l) = Start) → count_in_flight (map f ls) = 0.
Proof.
  intros Hf. induction ls as [|l ls IH]; simpl; [done|].
  unfold in_flight. by rewrite Hf, IH.
Qed.

Ltac fin := intros; simplify_eq; try (done || lia || congruence || auto with lia).

Ltac use_should_crawl :=
  repeat match goal with
    | H : _should_crawl _ _ _ _ _ _ = Some (true, _) |- _ =>
        let H' := fresh in
        let H'' := fresh in
        pose proof (should_crawl_only_breaker _ _ _ _ _ _ _ H) as H';
        pose proof (should_crawl_not_stopped _ _ _ _ _ _ H) as H'';
        clear H; rewrite H' in *; clear H'
    | H : _should_crawl _ _ _ _ _ _ = Some _ |- _ =>
        let H' := fresh in
        pose proof (should_crawl_only_breaker _ _ _ _ _ _ _ H) as H';
        clear H; rewrite H' in *; clear H'
    | H : select_children _ _ _ _ _ _ = (_, _) |- _ =>
        let H' := fresh in
        pose proof (select_children_only_breaker _ _ _ _ _ _ _ H) as H';
        clear H; rewrite H' in *; clear H'
    end.

Ltac leb_hyps :=
  repeat match goal with
    | H : _ && _ = true |- _ => apply andb_true_iff in H as [? ?]
    | H : negb _ = true |- _ => apply negb_true_iff in H
    | H : (_ <=? _) = true |- _ => apply Z.leb_le in H
    | H : (_ <=? _) = false |- _ => apply Z.leb_gt in H
    | H : (_ <? _) = true |- _ => apply Z.ltb_lt in H
    | H : (_ <? _) = false |- _ => apply Z.ltb_ge in H
    | H : (_ =? _) = true |- _ => apply Z.eqb_eq in H
    | H : (_ =? _) = false |- _ => apply Z.eqb_neq in H
    end.

(** What one resumption does to the success counter and the stop flag. *)
Lemma resume_counts tk f n tsk c c' p sp es :
  resume ext tk f n tsk c = (c', p, sp, es) →
  config c' = config c
  ∧ count_in_flight sp = 0
  ∧ (stop_crawling c = true →
       stop_crawling c' = true ∧ sp = []
       ∧ total_links c' + pc_in_flight p ≤ total_links c + pc_in_flight (at_ tsk))
  ∧ (stop_crawling c' = false →
       total_links c' < Config.max_links (config c)
       ∨ total_links c' = total_links c)
  ∧ (stop_crawling c = false → stop_crawling c' = true →
       total_links c' = total_links c + 1
       ∧ Config.max_links (config c) ≤ total_links c').
Proof.
  unfold resume.
  destruct (at_ tsk) eqn:Hat.
  - intros H. repeat (case_match; simplify_eq; simpl in *);
      repeat split; fin.
  - unfold admission, prepend, reject, propagate, loop_head, finish.
    intros H.
    repeat (case_match; simplify_eq; simpl in *);
      use_should_crawl; simpl in *; repeat split; fin.
  - intros H. simplify_eq. simpl. repeat split; fin.
  - unfold on_outcome, on_page, on_retryable, raise_in, on_other_exception,
      propagate, finish.
    intros H.
    repeat (case_match; simplify_eq; simpl in *);
      use_should_crawl; simpl in *; repeat split; fin.
    all: try (apply count_in_flight_start; done).
    all: leb_hyps; fin.
  - unfold loop_head, finish. intros H.
    repeat (case_match; simplify_eq; simpl in *); repeat split; fin.
  - unfold on_other_exception, finish. intros H.
    repeat (case_match; simplify_eq; simpl in *); repeat split; fin.
  - intros H. simplify_eq. simpl. repeat split; fin.
  - intros H. simplify_eq. simpl. repeat split; fin.
Qed.

Lemma step_unfold tk w tsk :
  tasks w !! who tk = Some tsk →
  step ext tk w
  = (let '(c, p, spawned, es) :=
       resume ext tk (λ i, at_ <$> tasks w !! i) (length (tasks w)) tsk (crawler w) in
     {| crawler := c;
        tasks := <[who tk := at_pc p tsk]> (tasks w) ++ spawned;
        log := log w ++ map (pair (who tk)) es |}).
Proof. intros H. unfold step. by rewrite H. Qed.

Lemma count_in_flight_nonneg ts : 0 ≤ count_in_flight ts.
Proof. induction ts as [|tsk ts IH]; simpl; [done|]. case_match; lia. Qed.

(** The same for one step of the event loop. *)
Lemma step_counts tk w :
  let w' := step ext tk w in
  config (crawler w') = config (crawler w)
  ∧ (stop_crawling (crawler w) = true →
       stop_crawling (crawler w') = true
       ∧ total_links (crawler w') + count_in_flight (tasks w')
         ≤ total_links (crawler w) + count_in_flight (tasks w))
  ∧ (stop_crawling (crawler w') = false →
       total_links (crawler w') < Config.max_links (config (crawler w))
       ∨ total_links (crawler w') = total_links (crawler w))
  ∧ (stop_crawling (crawler w) = false → stop_crawling (crawler w') = true →
       total_links (crawler w') = total_links (crawler w) + 1
       ∧ Config.max_links (config (crawler w)) ≤ total_links (crawler w')).
Proof.
  intros w'. subst w'.
  destruct (tasks w !! who tk) as [tsk|] eqn:E.
  - rewrite (step_unfold tk w tsk E).
    destruct (resume ext tk (λ i, at_ <$> tasks w !! i) (length (tasks w))
                tsk (crawler w)) as [[[c' p] sp] es] eqn:R.
    destruct (resume_counts _ _ _ _ _ _ _ _ _ R) as (Hc & Hsp & Hs & Hf & Hr).
    cbn [crawler tasks]. split; [done|]. split; [|done].
    intros Hstop. destruct (Hs Hstop) as (? & -> & Hle). split; [done|].
    rewrite app_nil_r, (count_in_flight_insert _ _ tsk) by done.
    rewrite at_at_pc. lia.
  - unfold step. rewrite E. repeat split; fin.
Qed.

Lemma loop_run_snoc sched tk w :
  run ext (sched ++ [tk]) w = step ext tk (run ext sched w).
Proof. unfold run. by rewrite fold_left_app. Qed.

Lemma run_config sched w :
  config (crawler (run ext sched w)) = config (crawler w).
Proof.
  induction sched as [|tk sched IH] using rev_ind; [done|].
  rewrite loop_run_snoc. destruct (step_counts tk (run ext sched w)) as (-> & _).
  done.
Qed.

(** While the flag is clear the counter is below the budget (or zero). *)
Lemma run_below_budget sched w :
  total_links (crawler w) = 0 →
  stop_crawling (crawler (run ext sched w)) = false →
  total_links (crawler (run ext sched w)) < Config.max_links (config (crawler w))
  ∨ total_links (crawler (run ext sched w)) = 0.
Proof.
  intros H0.
  induction sched as [|tk sched IH] using rev_ind; [auto|].
  rewrite loop_run_snoc.
  destruct (step_counts tk (run ext sched w)) as (_ & Hs & Hf & _).
  intros Hstop. destruct (Hf Hstop) as [Hlt| ->].
  - left. by rewrite run_config in Hlt.
  - apply IH. destruct (stop_crawling (crawler (run ext sched w))) eqn:E; [|done].
    destruct (Hs eq_refl) as [? _]. congruence.
Qed.

(** Once the flag is set it stays set, and the counter grows only as
    coroutines in flight finish. *)
Lemma run_after_stop sched w :
  stop_crawling (crawler w) = true →
  stop_crawling (crawler (run ext sched w)) = true
  ∧ total_links (crawler (run ext sched w))
      + count_in_flight (tasks (run ext sched w))
    ≤ total_links (crawler w) + count_in_flight (tasks w).
Proof.
  intros Hstop.
  induction sched as [|tk sched IH] using rev_ind; [simpl; split; [done|lia]|].
  rewrite loop_run_snoc. destruct IH as [IH1 IH2].
  destruct (step_counts tk (run ext sched w)) as (_ & Hs & _).
  destruct (Hs IH1) as [? ?]. split; [done|lia].
Qed.

Lemma step_idle tk w :
  idle w → idle (step ext tk w) ∧ crawler (step ext tk w) = crawler w.
Proof.
  intros [Hsem Hts].
  destruct (tasks w !! who tk) as [tsk|] eqn:E.
  - rewrite (step_unfold tk w tsk E).
    assert (at_ tsk = Start ∨ at_ tsk = Done) as Hat.
    { eapply Forall_lookup_1 in Hts; [|exact E]. done. }
    assert (resume ext tk (λ i, at_ <$> tasks w !! i) (length (tasks w))
              tsk (crawler w) = (crawler w, Done, [], [])) as ->.
    { unfold resume. destruct Hat as [-> | ->]; [|done].
      rewrite Hsem. simpl. by case_match. }
    split; [|done]. split; [done|]. cbn [tasks]. rewrite app_nil_r.
    apply Forall_insert; [done|]. by right.
  - unfold step. rewrite E. done.
Qed.

Lemma run_idle sched w :
  idle w → crawler (run ext sched w) = crawler w.
Proof.
  intros Hw.
  assert (idle (run ext sched w) ∧ crawler (run ext sched w) = crawler w) as [_ ?];
    [|done].
  induction sched as [|tk sched [IH1 IH2]] using rev_ind; [done|].
  rewrite loop_run_snoc. destruct (step_idle tk _ IH1) as [? ->]. done.
Qed.

Lemma crawl_start_fresh a cfg permits :
  let w := crawl_start ext a (fresh cfg permits) in
  config (crawler w) = cfg
  ∧ total_links (crawler w) = 0
  ∧ stop_crawling (crawler w) = false
  ∧ links_semaphore (crawler w) = permits
  ∧ Forall (λ tsk, at_ tsk = Start) (tasks w).
Proof.
  simpl. repeat split; try done.
  apply Forall_map. by apply Forall_true.
Qed.

Lemma new_fresh cfg c0 :
  Crawler.new cfg = Some c0 →
  c0 = fresh cfg (Z.min 100 (Config.max_links cfg * 2))
  ∧ 0 ≤ Config.max_links cfg.
Proof.
  unfold Crawler.new. case_match; [done|]. intros [= <-].
  split; [done|]. leb_hyps. lia.
Qed.

(** C1, as the code has it.  While the stop flag is clear the success
    counter is within the budget.  The step that raises the flag leaves
    the counter exactly at the budget; from then on the flag stays
    raised, nothing more is accepted, and the counter can pass the budget
    only by the fetches that were in flight at that moment. *)
Theorem total_links_within_budget_plus_in_flight
    (cfg : Config.CrawlerConfig) (a : SiteMapper.start_urls_arg) (c0 : t)
    (sched1 : list Tick) (tk : Tick) (sched2 : list Tick) :
  Crawler.new cfg = Some c0 →
  let w0 := run ext sched1 (crawl_start ext a c0) in
  let w1 := step ext tk w0 in
  let w2 := run ext sched2 w1 in
  (stop_crawling (crawler w0) = false →
     total_links (crawler w0) ≤ Config.max_links cfg)
  ∧ (stop_crawling (crawler w0) = false → stop_crawling (crawler w1) = true →
       total_links (crawler w1) = Config.max_links cfg
       ∧ stop_crawling (crawler w2) = true
       ∧ total_links (crawler w2) + count_in_flight (tasks w2)
         ≤ Config.max_links cfg + count_in_flight (tasks w1)
       ∧ total_links (crawler w2)
         ≤ Config.max_links cfg + count_in_flight (tasks w1)).
Proof.
  intros Hnew w0 w1 w2.
  destruct (new_fresh cfg c0 Hnew) as [-> Hml].
  set (permits := Z.min 100 (Config.max_links cfg * 2)) in *.
  destruct (crawl_start_fresh a cfg permits) as (Hcfg & Htot & Hstop & Hsem & Hts).
  set (ws := crawl_start ext a (fresh cfg permits)) in *.
  assert (stop_crawling (crawler w0) = false →
          total_links (crawler w0) < Config.max_links cfg
          ∨ total_links (crawler w0) = 0) as Hbelow.
  { intros H. subst w0. rewrite <- Hcfg. by apply run_below_budget. }
  split; [intros H; destruct (Hbelow H); lia|].
  intros H0 H1.
  destruct (step_counts tk w0) as (_ & _ & _ & Hr).
  destruct (Hr H0 H1) as [Hinc Hge].
  assert (config (crawler w0) = cfg) as Hcfg0.
  { subst w0. by rewrite run_config. }
  rewrite Hcfg0 in Hge. fold w1 in Hinc, Hge.
  assert (total_links (crawler w1) = Config.max_links cfg) as Heq.
  { destruct (Hbelow H0) as [?|Hz]; [lia|].
    destruct (decide (Config.max_links cfg = 0)) as [Hzero|?]; [|lia].
    exfalso.
    assert (idle ws) as Hidle.
    { split; [rewrite Hsem; subst permits; lia|].
      eapply Forall_impl; [exact Hts|]. by left. }
    assert (crawler w1 = crawler ws) as Hsame.
    { subst w1 w0. rewrite <- loop_run_snoc. by apply run_idle. }
    rewrite Hsame in H1. congruence. }
  split; [done|].
  destruct (run_after_stop sched2 w1 H1) as [Hs2 Hle]. fold w2 in Hs2, Hle.
  split; [done|]. split; [lia|].
  pose proof (count_in_flight_nonneg (tasks w2)). lia.
Qed.

Lemma is_excluded_by h u :
  URLHandler._is_excluded_url ext h u
  = excluded_by ext (URLHandler.exclude_keywords h) u.
Proof. done. Qed.

Ltac sets :=
  try (apply Forall_nil; done);
  try (apply Forall_map, Forall_true; done);
  try (set_unfold; naive_solver).

(** What one resumption does with respect to exclusion: only a URL that
    is not excluded is requested or recorded. *)
Lemma resume_exclusion kw tk f n tsk c c' p sp es :
  resume ext tk f n tsk c = (c', p, sp, es) →
  (∀ o h, url_handlers c !! o = Some h → URLHandler.exclude_keywords h = kw) →
  (past_admission (at_ tsk) → excluded_by ext kw (url tsk) = false) →
  url_handlers c' = url_handlers c
  ∧ (past_admission p → excluded_by ext kw (url tsk) = false)
  ∧ Forall (λ t, at_ t = Start) sp
  ∧ (∀ u, u ∈ visited_urls c' →
          u ∈ visited_urls c ∨ excluded_by ext kw u = false)
  ∧ (∀ u, u ∈ failed_urls c' →
          u ∈ failed_urls c ∨ excluded_by ext kw u = false)
  ∧ (∀ u, is_Some (SiteMapper.site_map (site_mapper c') !! u) →
          is_Some (SiteMapper.site_map (site_mapper c) !! u)
          ∨ excluded_by ext kw u = false)
  ∧ (∀ u, HttpGet u ∈ es → excluded_by ext kw u = false)
  ∧ (excluded_by ext kw (url tsk) = true → total_links c' = total_links c).
Proof.
  intros R Hkw Hadm. revert R. unfold resume.
  destruct (at_ tsk) eqn:Hat; simpl in Hadm.
  - intros H. repeat (case_match; simplify_eq; simpl in *);
      repeat split; fin; sets.
  - destruct (0 <? links_semaphore c); [|intros H; simplify_eq; repeat split; fin; sets].
    unfold admission. cbn [acquire with_links_semaphore url_handlers].
    destruct (url_handlers c !! origin_url tsk) as [h|] eqn:E;
      [|intros H; simplify_eq/=; repeat split; fin; sets].
    rewrite is_excluded_by, (Hkw _ _ E).
    destruct (excluded_by ext kw (url tsk)) eqn:Ex;
      [intros H; simplify_eq/=; repeat split; fin; sets|].
    unfold prepend, reject, propagate, loop_head, finish.
    intros H.
    repeat (case_match; simplify_eq; simpl in * );
      use_should_crawl; simpl in *; repeat split; fin; sets.
  - specialize (Hadm I). intros H. simplify_eq. simpl. repeat split; fin; sets.
  - specialize (Hadm I).
    unfold on_outcome, on_page, on_retryable, raise_in, on_other_exception,
      propagate, finish.
    intros H.
    repeat (case_match; simplify_eq; simpl in *);
      use_should_crawl; simpl in *; repeat split; fin; sets.
    all: try (apply Forall_cons; split; [done|];
              apply Forall_map, Forall_true; done).
    all: match goal with
         | H : is_Some (<[_ := _]> _ !! _) |- _ =>
             apply lookup_insert_is_Some in H as [<-|[_ ?]]; auto
         end.
  - specialize (Hadm I). unfold loop_head, finish. intros H.
    repeat (case_match; simplify_eq; simpl in *); repeat split; fin; sets.
  - specialize (Hadm I). unfold on_other_exception, finish. intros H.
    repeat (case_match; simplify_eq; simpl in *); repeat split; fin; sets.
  - intros H. simplify_eq. simpl. repeat split; fin; sets.
  - intros H. simplify_eq. simpl. repeat split; fin; sets.
Qed.

Lemma step_clean kw tk w : clean ext kw w → clean ext kw (step ext tk w).
Proof.
  intros (Hkw & Hts & Hv & Hf & Hm & Hl).
  destruct (tasks w !! who tk) as [tsk|] eqn:E;
    [|unfold step; rewrite E; done].
  rewrite (step_unfold tk w tsk E).
  destruct (resume ext tk (λ i, at_ <$> tasks w !! i) (length (tasks w))
              tsk (crawler w)) as [[[c' p] sp] es] eqn:R.
  assert (past_admission (at_ tsk) → excluded_by ext kw (url tsk) = false) as Hadm.
  { eapply Forall_lookup_1 in Hts; [|exact E]. done. }
  destruct (resume_exclusion kw _ _ _ _ _ _ _ _ _ R Hkw Hadm)
    as (Hh & Hp & Hsp & Hv' & Hf' & Hm' & He & _).
  unfold clean. cbn [crawler tasks log]. repeat split.
  - intros o h. rewrite Hh. apply Hkw.
  - apply Forall_app. split.
    + apply Forall_insert; [done|]. done.
    + eapply Forall_impl; [exact Hsp|]. intros t -> [].
  - intros u Hu. destruct (Hv' u Hu); auto.
  - intros u Hu. destruct (Hf' u Hu); auto.
  - intros u Hu. destruct (Hm' u Hu); auto.
  - intros i u Hu. apply elem_of_app in Hu as [Hu|Hu]; [by eapply Hl|].
    apply list_elem_of_fmap in Hu as (e & [= ? ?] & He'). subst. by apply He.
Qed.

Lemma run_clean kw sched w : clean ext kw w → clean ext kw (run ext sched w).
Proof.
  intros Hw. induction sched as [|tk sched IH] using rev_ind; [done|].
  rewrite loop_run_snoc. by apply step_clean.
Qed.

Lemma handlers_keywords cfg (urls : list string) (hs : gmap string URLHandler.t) :
  (∀ o h, hs !! o = Some h →
          URLHandler.exclude_keywords h = Config.exclude_keywords cfg) →
  ∀ o h, fold_left (λ hs u, <[u := handler_for ext cfg u]> hs) urls hs !! o = Some h →
         URLHandler.exclude_keywords h = Config.exclude_keywords cfg.
Proof.
  revert hs. induction urls as [|u urls IH]; intros hs Hhs; [done|].
  simpl. apply IH. intros o h Ho.
  apply lookup_insert_Some in Ho as [[_ <-]|[_ Ho]]; [done|by eapply Hhs].
Qed.

Lemma crawl_start_clean a cfg permits :
  clean ext (Config.exclude_keywords cfg) (crawl_start ext a (fresh cfg permits)).
Proof.
  unfold clean, crawl_start. cbn [crawler tasks log]. repeat split.
  - cbn [url_handlers with_url_handlers fresh config].
    apply handlers_keywords. intros o h Ho. by rewrite lookup_empty in Ho.
  - apply Forall_map, Forall_true. intros u [].
  - simpl. intros u Hu. set_solver.
  - simpl. intros u Hu. set_solver.
  - simpl. intros u [? Hu]. by rewrite lookup_empty in Hu.
  - intros i u Hu. by apply elem_of_nil in Hu.
Qed.

(** C6: a URL that a handler of the crawl classifies as excluded is
    never in [visited_urls] or [failed_urls], has no page in the site
    map, is never requested, and no step of a task for it moves the
    success counter. *)
Theorem excluded_url_never_recorded_or_counted
    (cfg : Config.CrawlerConfig) (a : SiteMapper.start_urls_arg) (c0 : t)
    (sched : list Tick) (origin : string) (h : URLHandler.t) (u : string) :
  Crawler.new cfg = Some c0 →
  let w := run ext sched (crawl_start ext a c0) in
  url_handlers (crawler w) !! origin = Some h →
  URLHandler._is_excluded_url ext h u = true →
  (u ∉ visited_urls (crawler w))
  ∧ (u ∉ failed_urls (crawler w))
  ∧ SiteMapper.site_map (site_mapper (crawler w)) !! u = None
  ∧ (∀ i, (i, HttpGet u) ∉ log w)
  ∧ (∀ tk tsk, tasks w !! who tk = Some tsk → url tsk = u →
       total_links (crawler (step ext tk w)) = total_links (crawler w)).
Proof.
  intros Hnew w Hh Hex.
  destruct (new_fresh cfg c0 Hnew) as [-> _].
  pose proof (run_clean _ sched _
                (crawl_start_clean a cfg (Z.min 100 (Config.max_links cfg * 2))))
    as Hclean.
  fold w in Hclean. destruct Hclean as (Hkw & Hts & Hv & Hf & Hm & Hl).
  rewrite is_excluded_by, (Hkw _ _ Hh) in Hex.
  repeat split.
  - intros Hu. apply Hv in Hu. congruence.
  - intros Hu. apply Hf in Hu. congruence.
  - destruct (SiteMapper.site_map (site_mapper (crawler w)) !! u) eqn:E; [|done].
    assert (excluded_by ext (Config.exclude_keywords cfg) u = false);
      [apply Hm; eauto|congruence].
  - intros i Hu. apply Hl in Hu. congruence.
  - intros tk tsk E <-. rewrite (step_unfold tk w tsk E).
    destruct (resume ext tk (λ i, at_ <$> tasks w !! i) (length (tasks w))
                tsk (crawler w)) as [[[c' p] sp] es] eqn:R.
    assert (past_admission (at_ tsk) →
            excluded_by ext (Config.exclude_keywords cfg) (url tsk) = false)
      as Hadm.
    { eapply Forall_lookup_1 in Hts; [|exact E]. done. }
    destruct (resume_exclusion _ _ _ _ _ _ _ _ _ _ R Hkw Hadm)
      as (_ & _ & _ & _ & _ & _ & _ & Ht).
    by apply Ht.
Qed.

End Loop.

(** ** Content extraction and the seed argument *)

Section Extraction.
Import ContentExtractor Spec.
Context (bs : BS4).

Lemma only_Exception_bind {A B} (r : result A) (k : A → result B) :
  only_Exception r → (∀ a, only_Exception (k a)) → only_Exception (bind r k).
Proof.
  intros Hr Hk e. destruct r as [a|e']; simpl.
  - apply Hk.
  - intros [= ->]. by apply Hr.
Qed.

Lemma extract_content_body_only_Exception html u :
  ordinary_failures bs → only_Exception (extract_content_body bs html u).
Proof.
  intros (H1 & H2 & H3 & H4 & H5). unfold extract_content_body.
  apply only_Exception_bind; [done|]. intros soup.
  apply only_Exception_bind; [done|]. intros [blocks soup'].
  apply only_Exception_bind; [done|]. intros soup''.
  apply only_Exception_bind; [done|]. intros t.
  apply only_Exception_bind; [done|]. intros m.
  intros e. done.
Qed.

(** C9: whatever the markup and the URL, [extract_content] returns a
    result tagged with the URL; when a step inside fails the result has
    an empty title, empty content and no code block. *)
Theorem extract_content_never_raises (html u : string) :
  ordinary_failures bs →
  ∃ c, extract_content bs html u = Ok c
       ∧ url c = u
       ∧ (∀ e, extract_content_body bs html u = Raise e →
               c = empty_result u
               ∧ title c = "" ∧ content c = "" ∧ code_blocks c = []).
Proof.
  intros Hbs.
  pose proof (extract_content_body_only_Exception html u Hbs) as Hbody.
  unfold extract_content, try_except_Exception.
  destruct (extract_content_body bs html u) as [c|e] eqn:E.
  - exists c. split; [done|]. split; [|done].
    revert E. unfold extract_content_body, bind.
    repeat case_match; intros; simplify_eq. done.
  - rewrite (Hbody e eq_refl). exists (empty_result u). done.
Qed.

End Extraction.

Section Seeds.
Import Crawler.
Context (ext : Externals).

(** C10: a bare string given for [start_urls] is taken as the list of
    that one string, by [crawl] and by [generate_output] alike: one
    handler and one task for the string, and the same result under every
    schedule. *)
Theorem single_string_is_one_element_list
    (u : string) (sched : list Tick) (end_time : Z) (c : t)
    (m : SiteMapper.t) :
  crawl ext (SiteMapper.OneStr u) sched end_time c
  = crawl ext (SiteMapper.StrList [u]) sched end_time c
  ∧ tasks (crawl_start ext (SiteMapper.OneStr u) c) = [seed_task u]
  ∧ url_handlers (crawler (crawl_start ext (SiteMapper.OneStr u) c))
    = <[u := handler_for ext (config c) u]> (url_handlers c)
  ∧ SiteMapper.generate_output end_time (SiteMapper.OneStr u) m
    = SiteMapper.generate_output end_time (SiteMapper.StrList [u]) m
  ∧ SiteMapper.start_urls
      (SiteMapper.metadata
         (SiteMapper.generate_output end_time (SiteMapper.OneStr u) m))
    = [u].
Proof. done. Qed.

End Seeds.

(** ** The statements at concrete inputs *)

Section Instances.
Import Crawler Spec.

(** C1 as stated fails: with a budget of one page and two seeds, both
    seeds are accepted before either answer arrives, both pages count,
    and the crawl completes with [total_links = 2]. *)
Lemma total_links_exceeds_max_links :
  Crawler.new (Examples.cfg 1 3) = Some (fresh (Examples.cfg 1 3) 2)
  ∧ (let w := run Examples.ext Examples.overshoot
                (crawl_start Examples.ext Examples.two_seeds
                   (fresh (Examples.cfg 1 3) 2)) in
     map at_ (tasks w) = [Done; Done]
     ∧ total_links (crawler w) = 2
     ∧ ¬ total_links (crawler w) ≤ Config.max_links (Examples.cfg 1 3)).
Proof. vm_compute. repeat split; try reflexivity. intros H. by apply H. Qed.

Lemma total_links_within_budget_plus_in_flight_witness :
  Crawler.new (Examples.cfg 1 3) = Some (fresh (Examples.cfg 1 3) 2)
  ∧ (let w1 := run Examples.ext (Examples.both_in_flight
                                    ++ [Examples.tick 0 Examples.ok_page])
                 (crawl_start Examples.ext Examples.two_seeds
                    (fresh (Examples.cfg 1 3) 2)) in
     let w2 := step Examples.ext (Examples.tick 1 Examples.ok_page) w1 in
     total_links (crawler w1) = 1
     ∧ total_links (crawler w2) ≤ 1 + count_in_flight (tasks w1)).
Proof.
  split; [reflexivity|].
  destruct (total_links_within_budget_plus_in_flight Examples.ext
              (Examples.cfg 1 3) Examples.two_seeds (fresh (Examples.cfg 1 3) 2)
              Examples.both_in_flight (Examples.tick 0 Examples.ok_page)
              [Examples.tick 1 Examples.ok_page] eq_refl) as [_ H].
  destruct H as (H1 & _ & _ & H2); [reflexivity|reflexivity|].
  split; [exact H1|exact H2].
Defined.

Lemma rejected_admission_releases_twice_witness :
  let r := resume Examples.ext (Examples.tick 0 Examples.ok_page) (λ _, None) 1
             Examples.login_task Examples.login_crawler in
  URLHandler.matches_excluded_patterns "https://a.test/login" = true
  ∧ r.1.1.2 = Done
  ∧ count_releases r.2 = 2
  ∧ links_semaphore r.1.1.1 = links_semaphore Examples.login_crawler + 1.
Proof.
  intros r. split; [reflexivity|]. split; [reflexivity|].
  destruct (rejected_admission_releases_twice Examples.ext
              (Examples.tick 0 Examples.ok_page) (λ _, None) 1
              Examples.login_task Examples.login_crawler
              r.1.1.1 r.1.2 r.2) as (_ & H1 & H2);
    [reflexivity|reflexivity|discriminate|reflexivity|].
  split; [exact H1|exact H2].
Defined.

Lemma circuit_opens_at_threshold_closes_after_timeout_witness :
  let cb := CircuitBreaker.run
              [CircuitBreaker.RecordFailure "a.test" 0;
               CircuitBreaker.RecordFailure "a.test" 5]
              (CircuitBreaker.new 2 60) in
  CircuitBreaker.open_circuits cb !! "a.test" = Some 60000005
  ∧ fst (CircuitBreaker.is_open 60000005 "a.test" cb) = true.
Proof.
  destruct (circuit_opens_at_threshold_closes_after_timeout 2 60
              [CircuitBreaker.RecordFailure "a.test" 0]
              (CircuitBreaker.RecordFailure "a.test" 5) "a.test")
    as (_ & H & _).
  destruct H as (_ & _ & _ & H); [reflexivity|].
  destruct (H 5 eq_refl) as [H1 H2];
    [vm_compute; discriminate|reflexivity|].
  split; [exact H1|]. apply H2. vm_compute. discriminate.
Defined.

(** C3 as stated fails: after the circuit of [a.test] has timed out, and
    before any [is_open] has removed its entry, a second consecutive
    failure brings the count to the threshold 2, yet [is_open] answers
    false at that instant and ever after. *)
Lemma is_open_stays_false_at_threshold :
  let c := CircuitBreaker.RecordFailure "a.test" 101000000 in
  let cb := CircuitBreaker.run Examples.stale_calls (CircuitBreaker.new 2 60) in
  let cb' := CircuitBreaker.exec c cb in
  CircuitBreaker.consecutive_failures "a.test"
    (CircuitBreaker.history Examples.stale_calls (CircuitBreaker.new 2 60)) = 1
  ∧ CircuitBreaker.consecutive_failures "a.test"
      (CircuitBreaker.history (Examples.stale_calls ++ [c]) (CircuitBreaker.new 2 60))
    = CircuitBreaker.threshold cb'
  ∧ CircuitBreaker.threshold cb' = 2
  ∧ fst (CircuitBreaker.is_open 100000000 "a.test" cb) = false
  ∧ (∀ t, 101000000 ≤ t → fst (CircuitBreaker.is_open t "a.test" cb') = false).
Proof.
  intros c cb cb'. split_and!; try reflexivity.
  intros t Ht.
  destruct (fst (CircuitBreaker.is_open t "a.test" cb')) eqn:E; [|done].
  apply is_open_answer in E as (u & Hu & Hle).
  vm_compute in Hu. simplify_eq. lia.
Qed.

Lemma retry_loop_stops_after_1025_attempts_witness :
  let result := drive Examples.ext
                  (concat (map round_inputs (replicate 1024 Examples.overflow_round))
                     ++ [Examples.server_error; Examples.server_error])
                  (Examples.retry_task (Sleeping 0)) in
  Config.max_retries Examples.overflow_cfg = 1025
  ∧ count_gets (snd result) = 1025.
Proof.
  split; [reflexivity|].
  destruct (retry_loop_stops_after_1025_attempts
              Examples.ext Examples.overflow_cfg
              (Examples.retry_task (Sleeping 0))
              (replicate 1024 Examples.overflow_round)
              Examples.server_error Examples.server_error)
    as (_ & _ & H & _).
  - reflexivity.
  - simpl. lia.
  - apply length_replicate.
  - apply Forall_replicate. repeat split; reflexivity.
  - reflexivity.
  - reflexivity.
  - exact H.
Defined.

Lemma retryable_failures_make_max_retries_plus_one_attempts_witness :
  let result := drive Examples.ext
                  (round_inputs Examples.one_round
                     ++ [Examples.timed_out; Examples.timed_out])
                  (Examples.retry_task (Sleeping 0)) in
  fst result = Done ∧ count_gets (snd result) = 2.
Proof.
  destruct (retryable_failures_make_max_retries_plus_one_attempts
              Examples.ext (Examples.cfg 10 1)
              (Examples.retry_task (Sleeping 0)) [Examples.one_round]
              Examples.timed_out Examples.timed_out)
    as (H1 & _ & H2).
  - reflexivity.
  - reflexivity.
  - simpl. lia.
  - apply Forall_cons. split; [|apply Forall_nil; exact I].
    repeat split; reflexivity.
  - repeat split; reflexivity.
  - split; [exact H1|exact H2].
Defined.

Lemma client_error_fails_at_once_witness :
  let result := resume Examples.ext Examples.not_found (λ _, None) 1
                  (Examples.retry_task (Fetching 0)) Examples.retry_crawler in
  "https://a.test" ∈ failed_urls result.1.1.1
  ∧ circuit_breaker result.1.1.1 = circuit_breaker Examples.retry_crawler.
Proof.
  destruct (client_error_fails_at_once Examples.ext Examples.not_found
              (λ _, None) 1 (Examples.retry_task (Fetching 0)) 0
              Examples.retry_crawler 404 NonHtml)
    as (_ & _ & _ & H1 & H2 & _).
  - reflexivity.
  - reflexivity.
  - lia.
  - split; [exact H1|exact H2].
Defined.

Lemma excluded_url_never_recorded_or_counted_witness :
  let w := run Examples.ext
             [Examples.tick 0 Examples.ok_page; Examples.tick 0 Examples.ok_page]
             (crawl_start Examples.ext
                (SiteMapper.OneStr "https://a.test/login")
                (fresh (Examples.cfg 10 3) 20)) in
  ("https://a.test/login" ∉ visited_urls (crawler w))
  ∧ ("https://a.test/login" ∉ failed_urls (crawler w)).
Proof.
  destruct (excluded_url_never_recorded_or_counted Examples.ext
              (Examples.cfg 10 3) (SiteMapper.OneStr "https://a.test/login")
              (fresh (Examples.cfg 10 3) 20)
              [Examples.tick 0 Examples.ok_page; Examples.tick 0 Examples.ok_page]
              "https://a.test/login"
              (handler_for Examples.ext (Examples.cfg 10 3) "https://a.test/login")
              "https://a.test/login")
    as (H1 & H2 & _).
  - reflexivity.
  - reflexivity.
  - reflexivity.
  - split; [exact H1|exact H2].
Defined.

Lemma extract_content_never_raises_witness :
  ContentExtractor.extract_content Examples.failing_bs4 "<html>" "https://a.test"
  = ContentExtractor.Ok (ContentExtractor.empty_result "https://a.test").
Proof.
  destruct (extract_content_never_raises Examples.failing_bs4
              "<html>" "https://a.test") as (c & H1 & _ & H2).
  - unfold ordinary_failures, only_Exception. simpl.
    repeat split; intros; simplify_eq; reflexivity.
  - destruct (H2 _ eq_refl) as [-> _]. exact H1.
Defined.

End Instances.

